(** * WorkspaceBlobResolver: quota-bounded blob upload

    A shallow embedding of
    [packages/backend/server/src/modules/workspaces/resolvers/blob.ts].

    Conventions.
    - JavaScript numbers that carry byte counts are modelled as [Z].
      The source computes with IEEE-754 doubles, whose sums are exact
      only as long as the operands and the result are safe integers
      (at most 2^53 - 1 in absolute value); every statement that depends
      on the value of [size + recvSize] carries that bound
      ([safeSizes]).
    - A [Uint8Array] chunk and a [Buffer] are lists of bytes.
    - The resolver's methods are [async]; one call is modelled as a
      computation in a state-and-exception monad over a [World] that holds
      the blob store and a chronological trace of the effects performed
      (permission checks, store calls, chunks received, log lines, cache
      invalidations).
    - The upload stream is a finite sequence of ['data'] events closed by
      ['end'] or ['error'].  Nothing in the source pauses, destroys or
      unsubscribes from the stream, so every event it emits reaches the
      listeners.
    - The deprecated queries [listBlobs], [collectAllBlobSizes] and
      [checkBlobSize] depend on the read cache and on the quota service
      only and are left out. *)

From Stdlib Require Import ZArith Lia Ascii.
From stdpp Require Import gmap strings list fin_maps pretty.

Local Open Scope string_scope.
Local Open Scope list_scope.
Local Open Scope Z_scope.

(** ** Values shared with the framework *)

Inductive HttpStatus := FORBIDDEN | PAYLOAD_TOO_LARGE.

Inductive FeatureType := UnlimitedWorkspace.

(** Modelled from the spec: the [Permission] enum lives in [../types],
    outside the excerpt; the spec distinguishes a read level from a write
    level ("read vs write"). *)
Inductive Permission := Read | Write.

Inductive Exception :=
| GraphQLError (message : string) (code : HttpStatus)
| ForbiddenException
| StreamFailure (reason : string)
| StoreUnavailable.

(** The two errors the spec names, recognised by what the source throws. *)
Definition QuotaRecordMissing : Exception :=
  GraphQLError "cannot find user quota" FORBIDDEN.

Definition isQuotaExceeded (e : Exception) : bool :=
  match e with
  | GraphQLError _ PAYLOAD_TOO_LARGE => true
  | _ => false
  end.

Abbreviation Chunk := (list Byte.byte) (only parsing).
Abbreviation Buffer := (list Byte.byte) (only parsing).

(** What a resolver hands back to GraphQL. *)
Inductive GqlValue :=
| GString (s : string)
| GInt (n : Z)
| GBoolean (b : bool)
| GStringList (l : list string).

(** ** The world a request runs in *)

Inductive Effect :=
| PermissionChecked (workspaceId userId : string) (required : Permission)
| StoreList (workspaceId : string)
| StoreTotalSize (workspaceId : string)
| StorePut (workspaceId name : string) (content : Buffer)
| StoreDelete (workspaceId name : string)
| StreamCreated
| ChunkReceived (chunk : Chunk)
| LogStorageExceeded (total quota : Z)
| LogBlobExceeded (recvSize limit : Z)
| CacheInvalidated (tags : list string) (workspaceId : string).

Record World := mkWorld {
  blobsOf : gmap (string * string) Buffer;
  storeOnline : bool;
  trace : list Effect
}.

(** How one call can finish.  [Thrown] is a rejected promise seen by the
    caller; [Crashed] is an exception escaping an event listener;
    [Hangs] is an [await] on a promise nobody settles. *)
Inductive Outcome (A : Type) :=
| Returned (a : A)
| Thrown (e : Exception)
| Crashed (e : Exception)
| Hangs.
Arguments Returned {A} a.
Arguments Thrown {A} e.
Arguments Crashed {A} e.
Arguments Hangs {A}.

Definition M (A : Type) : Type := World -> Outcome A * World.

Definition ret {A} (a : A) : M A := fun w => (Returned a, w).

Definition bind {A B} (m : M A) (k : A -> M B) : M B :=
  fun w =>
    match m w with
    | (Returned a, w') => k a w'
    | (Thrown e, w') => (Thrown e, w')
    | (Crashed e, w') => (Crashed e, w')
    | (Hangs, w') => (Hangs, w')
    end.

Definition throw {A} (e : Exception) : M A := fun w => (Thrown e, w).

Definition hang {A} : M A := fun w => (Hangs, w).

Definition perform (e : Effect) : M unit :=
  fun w => (Returned tt, mkWorld (blobsOf w) (storeOnline w) (trace w ++ [e])).

Notation "x <- c1 ;; c2" := (bind c1 (fun x => c2))
  (at level 100, c1 at next level, right associativity).
Notation "c1 ;; c2" := (bind c1 (fun _ => c2))
  (at level 100, right associativity).

(** An exception thrown while an event listener runs is not caught by
    the promise executor that registered the listener. *)
Definition inListener {A} (m : M A) : M A :=
  fun w =>
    match m w with
    | (Thrown e, w') => (Crashed e, w')
    | r => r
    end.

(** ** Collaborators *)

Record WorkspaceUsage := mkUsage {
  quota : option Z;
  size : Z;
  limit : Z
}.

(** The injected services.  Their implementations are outside the
    excerpt; the read-only ones are taken as oracles. *)
Record WorkspaceBlobResolver := mkResolver {
  permissionOf : string -> string -> option Permission;
  getWorkspaceUsage : string -> WorkspaceUsage;
  hasWorkspaceFeature : string -> FeatureType -> bool
}.

(** Modelled from the spec: [PermissionService.checkWorkspace] is outside
    the excerpt.  It "resolves the caller's permission level for tenantId
    (read vs write)" and "fails with Forbidden"; a call that omits the
    level asks for the read level. *)
Definition permits (held : option Permission) (required : Permission) : bool :=
  match held, required with
  | Some Write, _ => true
  | Some Read, Read => true
  | _, _ => false
  end.

Definition checkWorkspace (this : WorkspaceBlobResolver)
    (ws user : string) (permission : option Permission) : M unit :=
  let required := default Read permission in
  perform (PermissionChecked ws user required) ;;
  if permits (permissionOf this ws user) required
  then ret tt
  else throw ForbiddenException.

(** Modelled from the spec: [WorkspaceBlobStorage] is outside the excerpt.
    "put(tenantId, name, bytes)", "delete(tenantId, name)",
    "list(tenantId) -> sequence of {key, size}", "totalSize(tenantId)";
    records are "keyed by (tenantId, name); overwritten on put with the
    same key, removed on delete"; "all fail with StoreUnavailable on
    transport errors". *)
Definition whenOnline {A} (m : M A) : M A :=
  fun w => if storeOnline w then m w else (Thrown StoreUnavailable, w).

Definition itemsOf (ws : string) (m : gmap (string * string) Buffer)
    : list (string * Z) :=
  omap (fun kv : (string * string) * Buffer =>
          if decide (kv.1.1 = ws)
          then Some (kv.1.2, Z.of_nat (length kv.2))
          else None)
       (map_to_list m).

Definition storage_list (ws : string) : M (list (string * Z)) :=
  perform (StoreList ws) ;;
  whenOnline (fun w => (Returned (itemsOf ws (blobsOf w)), w)).

Definition storage_totalSize (ws : string) : M Z :=
  perform (StoreTotalSize ws) ;;
  whenOnline (fun w =>
    (Returned (foldr Z.add 0 (snd <$> itemsOf ws (blobsOf w))), w)).

Definition storage_put (ws name : string) (content : Buffer) : M unit :=
  perform (StorePut ws name content) ;;
  whenOnline (fun w =>
    (Returned tt,
     mkWorld (<[(ws, name) := content]> (blobsOf w)) (storeOnline w) (trace w))).

Definition storage_delete (ws name : string) : M unit :=
  perform (StoreDelete ws name) ;;
  whenOnline (fun w =>
    (Returned tt,
     mkWorld (delete (ws, name) (blobsOf w)) (storeOnline w) (trace w))).

(** Modelled from the spec: the [PreventCache] interceptor is outside the
    excerpt.  "On success, triggers invalidate({tags, args: {tenantId}}).
    On any failure path, no store mutation and no invalidation occurs." *)
Definition PreventCache {A} (tags : list string) (ws : string) (handler : M A)
    : M A :=
  r <- handler ;;
  perform (CacheInvalidated tags ws) ;;
  ret r.

(** ** Request arguments *)

Record UserType := mkUser { userId : string }.

Record WorkspaceType := mkWorkspace { workspaceIdOf : string }.

Inductive StreamEnding := Ended | Errored (reason : string).

(** What [blob.createReadStream()] will emit once it flows. *)
Record ReadStream := mkStream {
  dataEvents : list Chunk;
  ending : StreamEnding
}.

Record FileUpload := mkUpload {
  filename : string;
  createReadStream : ReadStream
}.

(** ** Promises *)

Inductive PromiseState :=
| Pending
| Fulfilled (buffer : Buffer)
| Rejected (reason : Exception).

(** Only the first settlement of a promise counts. *)
Definition resolve (buffer : Buffer) (p : PromiseState) : PromiseState :=
  match p with
  | Pending => Fulfilled buffer
  | _ => p
  end.

Definition reject (reason : Exception) (p : PromiseState) : PromiseState :=
  match p with
  | Pending => Rejected reason
  | _ => p
  end.

Definition await (p : PromiseState) : M Buffer :=
  match p with
  | Fulfilled buffer => ret buffer
  | Rejected reason => throw reason
  | Pending => hang
  end.

(** ** [setBlob] *)

(** The closure [checkExceeded] of [setBlob], with the variables it
    captures ([quota], [size], [limit], [unlimited]) as arguments.
    [!quota] holds for an absent limit and for the number 0.
    [size + recvSize] is the exact sum; the source's sum of two doubles
    is that number whenever [safeSizes] holds, and rounds it beyond. *)
Definition checkExceeded (usage : WorkspaceUsage) (unlimited : bool)
    (recvSize : Z) : M bool :=
  match quota usage with
  | None => throw (GraphQLError "cannot find user quota" FORBIDDEN)
  | Some q =>
      if q =? 0 then throw (GraphQLError "cannot find user quota" FORBIDDEN)
      else
        let total := size usage + recvSize in
        if (total >? q) && negb unlimited then
          perform (LogStorageExceeded total q) ;; ret true
        else if recvSize >? limit usage then
          perform (LogBlobExceeded recvSize (limit usage)) ;; ret true
        else ret false
  end.

(** The state shared by the three stream listeners. *)
Record Receiving := mkReceiving {
  chunks : list Chunk;
  promise : PromiseState
}.

(** [chunks.reduce((acc, cur) => acc + cur.length, 0)] *)
Definition bufferSize (cs : list Chunk) : Z :=
  fold_left (fun acc cur => acc + Z.of_nat (length cur)) cs 0.

Definition onData (check : Z -> M bool) (chunk : Chunk) (r : Receiving)
    : M Receiving :=
  let chunks' := chunks r ++ [chunk] in
  exceeded <- check (bufferSize chunks') ;;
  if exceeded then
    ret (mkReceiving chunks'
           (reject (GraphQLError "storage or blob size limit exceeded"
                                 PAYLOAD_TOO_LARGE) (promise r)))
  else ret (mkReceiving chunks' (promise r)).

Definition onError (reason : string) (r : Receiving) : M Receiving :=
  ret (mkReceiving (chunks r) (reject (StreamFailure reason) (promise r))).

Definition onEnd (check : Z -> M bool) (r : Receiving) : M Receiving :=
  let buffer := concat (chunks r) in
  exceeded <- check (Z.of_nat (length buffer)) ;;
  if exceeded then
    ret (mkReceiving (chunks r)
           (reject (GraphQLError "storage limit exceeded" PAYLOAD_TOO_LARGE)
                   (promise r)))
  else ret (mkReceiving (chunks r) (resolve buffer (promise r))).

(** The stream delivers each chunk to the ['data'] listener, whatever
    the promise's state. *)
Fixpoint emitData (check : Z -> M bool) (cs : list Chunk) (r : Receiving)
    : M Receiving :=
  match cs with
  | [] => ret r
  | chunk :: rest =>
      perform (ChunkReceived chunk) ;;
      r' <- inListener (onData check chunk r) ;;
      emitData check rest r'
  end.

Definition flow (check : Z -> M bool) (stream : ReadStream) : M Receiving :=
  perform StreamCreated ;;
  r <- emitData check (dataEvents stream) (mkReceiving [] Pending) ;;
  match ending stream with
  | Ended => inListener (onEnd check r)
  | Errored reason => inListener (onError reason r)
  end.

Definition setBlob (this : WorkspaceBlobResolver) (user : UserType)
    (workspaceId : string) (blob : FileUpload) : M GqlValue :=
  checkWorkspace this workspaceId (userId user) (Some Write) ;;
  let usage := getWorkspaceUsage this workspaceId in
  let unlimited := hasWorkspaceFeature this workspaceId UnlimitedWorkspace in
  let check := checkExceeded usage unlimited in
  exceeded <- check 0 ;;
  if exceeded then
    throw (GraphQLError "storage or blob size limit exceeded" PAYLOAD_TOO_LARGE)
  else
    r <- flow check (createReadStream blob) ;;
    buffer <- await (promise r) ;;
    storage_put workspaceId (filename blob) buffer ;;
    ret (GString (filename blob)).

(** ** The other resolvers *)

Definition blobs (this : WorkspaceBlobResolver) (user : UserType)
    (workspace : WorkspaceType) : M GqlValue :=
  checkWorkspace this (workspaceIdOf workspace) (userId user) None ;;
  list <- storage_list (workspaceIdOf workspace) ;;
  ret (GStringList (fst <$> list)).

Definition blobsSize (this : WorkspaceBlobResolver)
    (workspace : WorkspaceType) : M GqlValue :=
  total <- storage_totalSize (workspaceIdOf workspace) ;;
  ret (GInt total).

Definition deleteBlob (this : WorkspaceBlobResolver) (user : UserType)
    (workspaceId name : string) : M GqlValue :=
  checkWorkspace this workspaceId (userId user) None ;;
  storage_delete workspaceId name ;;
  ret (GBoolean true).

(** The two mutations as GraphQL sees them, under
    [@PreventCache(['blobs'], ['workspaceId'])]. *)
Definition setBlobMutation (this : WorkspaceBlobResolver) (user : UserType)
    (workspaceId : string) (blob : FileUpload) : M GqlValue :=
  PreventCache ["blobs"] workspaceId (setBlob this user workspaceId blob).

Definition deleteBlobMutation (this : WorkspaceBlobResolver) (user : UserType)
    (workspaceId name : string) : M GqlValue :=
  PreventCache ["blobs"] workspaceId (deleteBlob this user workspaceId name).

(** ** Sample data *)

Definition alice : UserType := mkUser "alice".

Definition bytes (n : nat) : Chunk := replicate n Byte.x61.

Definition service (held : option Permission) (q : option Z) (used lim : Z)
    (unlimited : bool) : WorkspaceBlobResolver :=
  mkResolver (fun _ _ => held) (fun _ => mkUsage q used lim)
             (fun _ _ => unlimited).

Definition emptyWorld : World := mkWorld ∅ true [].

(** ** The running-counter variant

    The same upload, written the way the specification words it: "a single
    running counter updated incrementally per chunk rather than re-summing
    the whole buffer on each check", with the final check made on
    [runningSize]. *)

Record ReceivingCounted := mkCounted {
  chunksC : list Chunk;
  runningSize : Z;
  promiseC : PromiseState
}.

Definition onData_running (check : Z -> M bool) (chunk : Chunk)
    (r : ReceivingCounted) : M ReceivingCounted :=
  let chunks' := chunksC r ++ [chunk] in
  let runningSize' := runningSize r + Z.of_nat (length chunk) in
  exceeded <- check runningSize' ;;
  if exceeded then
    ret (mkCounted chunks' runningSize'
           (reject (GraphQLError "storage or blob size limit exceeded"
                                 PAYLOAD_TOO_LARGE) (promiseC r)))
  else ret (mkCounted chunks' runningSize' (promiseC r)).

Definition onError_running (reason : string) (r : ReceivingCounted)
    : M ReceivingCounted :=
  ret (mkCounted (chunksC r) (runningSize r)
         (reject (StreamFailure reason) (promiseC r))).

Definition onEnd_running (check : Z -> M bool) (r : ReceivingCounted)
    : M ReceivingCounted :=
  exceeded <- check (runningSize r) ;;
  if exceeded then
    ret (mkCounted (chunksC r) (runningSize r)
           (reject (GraphQLError "storage limit exceeded" PAYLOAD_TOO_LARGE)
                   (promiseC r)))
  else ret (mkCounted (chunksC r) (runningSize r)
              (resolve (concat (chunksC r)) (promiseC r))).

Fixpoint emitData_running (check : Z -> M bool) (cs : list Chunk)
    (r : ReceivingCounted) : M ReceivingCounted :=
  match cs with
  | [] => ret r
  | chunk :: rest =>
      perform (ChunkReceived chunk) ;;
      r' <- inListener (onData_running check chunk r) ;;
      emitData_running check rest r'
  end.

Definition flow_running (check : Z -> M bool) (stream : ReadStream)
    : M ReceivingCounted :=
  perform StreamCreated ;;
  r <- emitData_running check (dataEvents stream) (mkCounted [] 0 Pending) ;;
  match ending stream with
  | Ended => inListener (onEnd_running check r)
  | Errored reason => inListener (onError_running reason r)
  end.

Definition setBlob_running (this : WorkspaceBlobResolver) (user : UserType)
    (workspaceId : string) (blob : FileUpload) : M GqlValue :=
  checkWorkspace this workspaceId (userId user) (Some Write) ;;
  let usage := getWorkspaceUsage this workspaceId in
  let unlimited := hasWorkspaceFeature this workspaceId UnlimitedWorkspace in
  let check := checkExceeded usage unlimited in
  exceeded <- check 0 ;;
  if exceeded then
    throw (GraphQLError "storage or blob size limit exceeded" PAYLOAD_TOO_LARGE)
  else
    r <- flow_running check (createReadStream blob) ;;
    buffer <- await (promiseC r) ;;
    storage_put workspaceId (filename blob) buffer ;;
    ret (GString (filename blob)).

Definition forget (r : ReceivingCounted) : Receiving :=
  mkReceiving (chunksC r) (promiseC r).

(** ** Vocabulary for the statements *)

(** The world after some more effects were recorded. *)
Definition logged (effects : list Effect) (w : World) : World :=
  mkWorld (blobsOf w) (storeOnline w) (trace w ++ effects).

(** The effects a call added to the trace. *)
Definition performed (before after : World) : list Effect :=
  drop (length (trace before)) (trace after).

Definition chunksReceived (effects : list Effect) : list Chunk :=
  omap (fun e => match e with ChunkReceived c => Some c | _ => None end)
       effects.

Definition isStorePut (e : Effect) : bool :=
  match e with StorePut _ _ _ => true | _ => false end.

Definition isCacheInvalidated (e : Effect) : bool :=
  match e with CacheInvalidated _ _ => true | _ => false end.

(** [Number.MAX_SAFE_INTEGER], and the numbers for which the source's
    double arithmetic is exact: the limits, the bytes stored, the bytes
    received and the sum the guard compares are all safe integers. *)
Definition MAX_SAFE_INTEGER : Z := 9007199254740991.

Definition safeInteger (n : Z) : Prop :=
  - MAX_SAFE_INTEGER <= n <= MAX_SAFE_INTEGER.

Definition safeSizes (usage : WorkspaceUsage) (recvSize : Z) : Prop :=
  match quota usage with
  | Some q => safeInteger q
  | None => True
  end
  /\ safeInteger (size usage)
  /\ safeInteger (limit usage)
  /\ safeInteger recvSize
  /\ safeInteger (size usage + recvSize).

(** The limit that passes the [!quota] test, if any. *)
Definition found (usage : WorkspaceUsage) : option Z :=
  match quota usage with
  | Some q => if q =? 0 then None else Some q
  | None => None
  end.

(** What [checkExceeded] answers and logs once the limit [q] is found. *)
Definition guard (q : Z) (usage : WorkspaceUsage) (unlimited : bool)
    (recvSize : Z) : bool :=
  ((size usage + recvSize >? q) && negb unlimited)
  || (recvSize >? limit usage).

Definition guardLog (q : Z) (usage : WorkspaceUsage) (unlimited : bool)
    (recvSize : Z) : list Effect :=
  if (size usage + recvSize >? q) && negb unlimited
  then [LogStorageExceeded (size usage + recvSize) q]
  else if recvSize >? limit usage
       then [LogBlobExceeded recvSize (limit usage)]
       else [].

Definition tooLarge : Exception :=
  GraphQLError "storage or blob size limit exceeded" PAYLOAD_TOO_LARGE.

(** Trace and promise after the ['data'] events [cs], when [received]
    bytes were buffered before them. *)
Fixpoint dataTrace (q : Z) (usage : WorkspaceUsage) (unlimited : bool)
    (received : Z) (cs : list Chunk) : list Effect :=
  match cs with
  | [] => []
  | c :: rest =>
      let n := received + Z.of_nat (length c) in
      ChunkReceived c
        :: guardLog q usage unlimited n ++ dataTrace q usage unlimited n rest
  end.

Fixpoint settleData (q : Z) (usage : WorkspaceUsage) (unlimited : bool)
    (received : Z) (cs : list Chunk) (p : PromiseState) : PromiseState :=
  match cs with
  | [] => p
  | c :: rest =>
      let n := received + Z.of_nat (length c) in
      settleData q usage unlimited n rest
        (if guard q usage unlimited n then reject tooLarge p else p)
  end.

Definition uploadTrace (q : Z) (usage : WorkspaceUsage) (unlimited : bool)
    (stream : ReadStream) : list Effect :=
  StreamCreated
    :: dataTrace q usage unlimited 0 (dataEvents stream)
    ++ match ending stream with
       | Ended => guardLog q usage unlimited (bufferSize (dataEvents stream))
       | Errored _ => []
       end.

(** The promise [flow] leaves behind once the limit [q] is found. *)
Definition settled (usage : WorkspaceUsage) (unlimited : bool) (q : Z)
    (stream : ReadStream) : PromiseState :=
  let cs := dataEvents stream in
  match ending stream with
  | Ended =>
      if guard q usage unlimited (bufferSize cs)
      then match cs with
           | [] => Rejected (GraphQLError "storage limit exceeded"
                                          PAYLOAD_TOO_LARGE)
           | _ :: _ => Rejected tooLarge
           end
      else Fulfilled (concat cs)
  | Errored reason =>
      match cs with
      | [] => Rejected (StreamFailure reason)
      | _ :: _ =>
          if guard q usage unlimited (bufferSize cs)
          then Rejected tooLarge
          else Rejected (StreamFailure reason)
      end
  end.

(** The world after a [put] that went through. *)
Definition committed (ws name : string) (content : Buffer)
    (effects : list Effect) (w : World) : World :=
  mkWorld (<[(ws, name) := content]> (blobsOf w)) (storeOnline w)
          (trace w ++ effects).

(** How [setBlob] ends and what the store then holds, as a function of
    the bytes received rather than of the chunks they came in. *)
Definition verdict (this : WorkspaceBlobResolver) (user : UserType)
    (ws name : string) (payload : Buffer) (closing : StreamEnding) (w : World)
    : Outcome GqlValue * gmap (string * string) Buffer :=
  let usage := getWorkspaceUsage this ws in
  let unlimited := hasWorkspaceFeature this ws UnlimitedWorkspace in
  if permits (permissionOf this ws (userId user)) Write then
    match found usage with
    | None => (Thrown QuotaRecordMissing, blobsOf w)
    | Some q =>
        if guard q usage unlimited 0
           || guard q usage unlimited (Z.of_nat (length payload))
        then (Thrown tooLarge, blobsOf w)
        else
          match closing with
          | Errored reason => (Thrown (StreamFailure reason), blobsOf w)
          | Ended =>
              if storeOnline w
              then (Returned (GString name), <[(ws, name) := payload]> (blobsOf w))
              else (Thrown StoreUnavailable, blobsOf w)
          end
    end
  else (Thrown ForbiddenException, blobsOf w).

(** Effects that neither write to the store nor invalidate the cache. *)
Definition harmless (e : Effect) : Prop :=
  isStorePut e = false /\ isCacheInvalidated e = false.

(** * The GraphQL client, [packages/frontend/graphql/src/fetcher.ts]

    JavaScript values as far as the client looks into them.  The fields
    of an object are listed in the order [Object.entries] enumerates
    them; a [File] is known by its name.  [JSON.stringify] is not spelled
    out: a form part or a body that holds JSON text is represented by the
    value that was serialised. *)

#[local] Set Warnings "-register-all".

Inductive JsValue :=
| JUndefined
| JNull
| JBoolean (b : bool)
| JNumber (n : Z)
| JString (s : string)
| JFile (name : string)
| JArray (items : list JsValue)
| JObject (fields : list (string * JsValue)).

(** What the client can throw. *)
Inductive Failure :=
| TypeError
| SyntaxError
| OneGraphQLError (message : string)
| ManyGraphQLErrors (messages : list string).

Inductive Try (A : Type) :=
| Done (a : A)
| Failed (e : Failure).
Arguments Done {A} a.
Arguments Failed {A} e.

(** lodash's [isNil] and [isObject], [instanceof File], and truthiness. *)
Definition isNil (value : JsValue) : bool :=
  match value with
  | JUndefined | JNull => true
  | _ => false
  end.

Definition isObject (value : JsValue) : bool :=
  match value with
  | JFile _ | JArray _ | JObject _ => true
  | _ => false
  end.

Definition isFile (value : JsValue) : bool :=
  match value with
  | JFile _ => true
  | _ => false
  end.

Definition truthyString (s : string) : bool := negb (String.eqb s "").

Definition truthy (value : JsValue) : bool :=
  match value with
  | JUndefined | JNull => false
  | JBoolean b => b
  | JNumber n => negb (n =? 0)
  | JString s => truthyString s
  | JFile _ | JArray _ | JObject _ => true
  end.

(** [object[key] = value], also [FormData.set] and a header assignment:
    an existing key keeps its place, a new one goes last. *)
Fixpoint setField {A} (key : string) (value : A) (fields : list (string * A))
    : list (string * A) :=
  match fields with
  | [] => [(key, value)]
  | (k, v) :: rest =>
      if String.eqb k key then (k, value) :: rest
      else (k, v) :: setField key value rest
  end.

Fixpoint getField {A} (key : string) (fields : list (string * A)) : option A :=
  match fields with
  | [] => None
  | (k, v) :: rest => if String.eqb k key then Some v else getField key rest
  end.

(** [Object.entries]: the elements of an array are keyed by their index
    in decimal, as are the characters of a string; numbers, booleans and
    files have no entries; [null] and [undefined] make it throw. *)
Definition indexed (items : list JsValue) : list (string * JsValue) :=
  imap (fun i value => (pretty i, value)) items.

Definition characters (s : string) : list JsValue :=
  (fun c => JString (String c EmptyString)) <$> String.list_ascii_of_string s.

Definition entries (value : JsValue) : option (list (string * JsValue)) :=
  match value with
  | JUndefined | JNull => None
  | JBoolean _ | JNumber _ | JFile _ => Some []
  | JString s => Some (indexed (characters s))
  | JArray items => Some (indexed items)
  | JObject fields => Some fields
  end.

(** ** [filterEmptyValue]

    [filterEntries] is the loop over [Object.entries(vars)] that fills
    [newVars]; it calls itself on the values that are objects and not
    files, which are never nil. *)
Fixpoint filterEntries (vars : JsValue) : list (string * JsValue) :=
  match vars with
  | JObject fields =>
      (fix forEach (es newVars : list (string * JsValue)) :=
         match es with
         | [] => newVars
         | (key, value) :: rest =>
             forEach rest
               (if isNil value then newVars
                else if isObject value && negb (isFile value)
                     then setField key (JObject (filterEntries value)) newVars
                     else setField key value newVars)
         end) fields []
  | JArray items =>
      (fix forEach (i : nat) (es : list JsValue)
           (newVars : list (string * JsValue)) :=
         match es with
         | [] => newVars
         | value :: rest =>
             forEach (S i) rest
               (if isNil value then newVars
                else if isObject value && negb (isFile value)
                     then setField (pretty i) (JObject (filterEntries value))
                                   newVars
                     else setField (pretty i) value newVars)
         end) 0%nat items []
  | JString s =>
      foldl (fun newVars kv => setField kv.1 kv.2 newVars) []
            (indexed (characters s))
  | _ => []
  end.

Definition filterEmptyValue (vars : JsValue) : Try JsValue :=
  if isNil vars then Failed TypeError
  else Done (JObject (filterEntries vars)).

(** One turn of the loop, for the statements. *)
Definition keepEntry (newVars : list (string * JsValue))
    (entry : string * JsValue) : list (string * JsValue) :=
  if isNil entry.2 then newVars
  else if isObject entry.2 && negb (isFile entry.2)
       then setField entry.1 (JObject (filterEntries entry.2)) newVars
       else setField entry.1 entry.2 newVars.

(** What is stored for a value that is not nil, and the entry the loop
    leaves for an entry of [vars], if any. *)
Definition kept (value : JsValue) : JsValue :=
  if isObject value && negb (isFile value)
  then JObject (filterEntries value) else value.

Definition keptEntry (entry : string * JsValue) : option (string * JsValue) :=
  if isNil entry.2 then None else Some (entry.1, kept entry.2).

(** A value is tidy when it holds no [null] or [undefined] and no array
    at any depth, and no object in it repeats a key. *)
Fixpoint tidy (value : JsValue) : bool :=
  match value with
  | JUndefined | JNull | JArray _ => false
  | JObject fields =>
      bool_decide (NoDup fields.*1)
      && (fix all (es : list (string * JsValue)) :=
            match es with
            | [] => true
            | (_, v) :: rest => tidy v && all rest
            end) fields
  | _ => true
  end.

(** ** [transformToForm] and [formatRequestBody] *)

Module RequestBody.
Record t := mk {
  operationName : option string;
  variables : JsValue;
  query : string
}.
End RequestBody.

(** The fields of [GraphQLQuery] (declared in [./graphql], outside the
    excerpt) that the client reads. *)
Module GraphQLQuery.
Record t := mk {
  operationName : string;
  definitionName : string;
  query : string;
  containsFile : option bool
}.
End GraphQLQuery.

Module QueryOptions.
Record t := mk {
  query : GraphQLQuery.t;
  variables : JsValue;
  keepNilVariables : option bool
}.
End QueryOptions.

Inductive FormPart :=
| JsonText (value : JsValue)
| Attached (file : string).

(** The [File]-valued variables of the top level: the [map] object and
    the [files] array after the loop of [transformToForm]. *)
Definition collectFiles (variables : JsValue)
    : list (string * JsValue) * list string :=
  foldl (fun (acc : list (string * JsValue) * list string) kv =>
           match kv.2 with
           | JFile file =>
               (setField "0" (JArray [JString ("variables." +:+ kv.1)]) acc.1,
                acc.2 ++ [file])
           | _ => acc
           end)
        ([], []) (default [] (entries variables)).

(** The [File]-valued entries, with their keys, in order. *)
Definition fileEntries (es : list (string * JsValue)) : list (string * string) :=
  omap (fun kv : string * JsValue =>
          match kv.2 with
          | JFile file => Some (kv.1, file)
          | _ => None
          end) es.

Definition transformToForm (body : RequestBody.t) : list (string * FormPart) :=
  let gqlBody :=
    [("query", JString (RequestBody.query body));
     ("variables", RequestBody.variables body);
     ("map", JObject [])]
    ++ match RequestBody.operationName body with
       | Some name => if truthyString name then [("name", JString name)] else []
       | None => []
       end in
  let collected :=
    if truthy (RequestBody.variables body)
    then collectFiles (RequestBody.variables body)
    else ([], []) in
  let form :=
    setField "map" (JsonText (JObject collected.1))
      (setField "operations" (JsonText (JObject gqlBody)) []) in
  foldl (fun form (entry : nat * string) =>
           setField (pretty entry.1) (Attached entry.2) form)
        form (imap (fun i file => (i, file)) collected.2).

Definition formatRequestBody (options : QueryOptions.t)
    : Try (RequestBody.t + list (string * FormPart)) :=
  let query := QueryOptions.query options in
  match
    (if default true (QueryOptions.keepNilVariables options)
     then Done (QueryOptions.variables options)
     else filterEmptyValue (QueryOptions.variables options))
  with
  | Failed e => Failed e
  | Done variables =>
      let body :=
        RequestBody.mk
          (if truthyString (GraphQLQuery.operationName query)
           then Some (GraphQLQuery.operationName query) else None)
          variables (GraphQLQuery.query query) in
      if default false (GraphQLQuery.containsFile query)
      then Done (inr (transformToForm body))
      else Done (inl body)
  end.

(** ** The response handler of [gqlFetch] *)

Record ExecutionResult := mkResult {
  errors : option (list string);
  data : JsValue
}.

(** A response: [json] is what [res.json()] yields, [None] when the body
    does not parse; an error of the result is known by its message. *)
Record Response := mkResponse {
  status : Z;
  contentType : option string;
  json : option ExecutionResult
}.

Definition onResponse (res : Response) : Try JsValue :=
  if match contentType res with
     | Some value => String.prefix "application/json" value
     | None => false
     end
  then
    match json res with
    | None => Failed SyntaxError
    | Some result =>
        if (status res >=? 400) || bool_decide (is_Some (errors result)) then
          match errors result with
          | Some (e :: es) => Failed (ManyGraphQLErrors (e :: es))
          | _ => Failed (OneGraphQLError "Empty GraphQL error body")
          end
        else if truthy (data result) then Done (data result)
        else Failed (OneGraphQLError "GraphQL query responds unexpected result")
    end
  else Failed (OneGraphQLError "GraphQL query responds unexpected result").

(** * Properties *)

(** ** The monad *)

Section Monad.
Context {A B : Type}.

Lemma bind_returned (m : M A) (k : A -> M B) w a w' :
  m w = (Returned a, w') -> bind m k w = k a w'.
Proof. intros E. unfold bind. now rewrite E. Qed.

Lemma bind_thrown (m : M A) (k : A -> M B) w e w' :
  m w = (Thrown e, w') -> bind m k w = (Thrown e, w').
Proof. intros E. unfold bind. now rewrite E. Qed.

Lemma bind_cong (m : M A) (k1 k2 : A -> M B) w :
  (forall a w', k1 a w' = k2 a w') -> bind m k1 w = bind m k2 w.
Proof.
  intros E. unfold bind. destruct (m w) as [[a| | |] w']; auto.
Qed.

Lemma bind_perform (e : Effect) (k : unit -> M B) w :
  bind (perform e) k w = k tt (logged [e] w).
Proof. reflexivity. Qed.

Lemma inListener_returned (m : M A) w a w' :
  m w = (Returned a, w') -> inListener m w = (Returned a, w').
Proof. intros E. unfold inListener. now rewrite E. Qed.
End Monad.

Lemma logged_nil w : logged [] w = w.
Proof. destruct w. unfold logged. simpl. now rewrite app_nil_r. Qed.

Lemma logged_logged l1 l2 w : logged l2 (logged l1 w) = logged (l1 ++ l2) w.
Proof. unfold logged. simpl. now rewrite app_assoc. Qed.

Lemma performed_logged l w : performed w (logged l w) = l.
Proof. unfold performed, logged. simpl. apply drop_app_length. Qed.

(** ** Sizes *)

Lemma fold_left_size (cs : list Chunk) (acc : Z) :
  fold_left (fun acc cur => acc + Z.of_nat (length cur)) cs acc
  = acc + bufferSize cs.
Proof.
  unfold bufferSize. revert acc.
  induction cs as [|c cs IH]; intros acc; simpl.
  - lia.
  - rewrite (IH (acc + _)), (IH (0 + _)). lia.
Qed.

Lemma bufferSize_cons (c : Chunk) (cs : list Chunk) :
  bufferSize (c :: cs) = Z.of_nat (length c) + bufferSize cs.
Proof. unfold bufferSize at 1. simpl. apply fold_left_size. Qed.

Lemma bufferSize_app (xs ys : list Chunk) :
  bufferSize (xs ++ ys) = bufferSize xs + bufferSize ys.
Proof.
  induction xs as [|x xs IH]; simpl.
  - reflexivity.
  - rewrite !bufferSize_cons, IH. lia.
Qed.

Lemma bufferSize_snoc (cs : list Chunk) (c : Chunk) :
  bufferSize (cs ++ [c]) = bufferSize cs + Z.of_nat (length c).
Proof. rewrite bufferSize_app, bufferSize_cons. unfold bufferSize. simpl. lia. Qed.

Lemma bufferSize_concat (cs : list Chunk) :
  bufferSize cs = Z.of_nat (length (concat cs)).
Proof.
  induction cs as [|c cs IH]; simpl.
  - reflexivity.
  - rewrite bufferSize_cons, length_app, IH. lia.
Qed.

Lemma bufferSize_nonneg (cs : list Chunk) : 0 <= bufferSize cs.
Proof. rewrite bufferSize_concat. lia. Qed.

(** ** The guard *)

Lemma found_Some usage q : found usage = Some q <-> quota usage = Some q /\ q <> 0.
Proof.
  unfold found. destruct (quota usage) as [q'|].
  - destruct (Z.eqb_spec q' 0); split; intros H.
    + discriminate.
    + destruct H as [[= ->] ?]. contradiction.
    + injection H as ->. auto.
    + destruct H as [[= ->] _]. reflexivity.
  - split; intros H; [discriminate | destruct H; discriminate].
Qed.

Lemma found_None usage :
  found usage = None <-> quota usage = None \/ quota usage = Some 0.
Proof.
  unfold found. destruct (quota usage) as [q'|].
  - destruct (Z.eqb_spec q' 0); split; intros H.
    + subst q'. auto.
    + reflexivity.
    + discriminate.
    + destruct H as [H|H]; [discriminate | injection H; contradiction].
  - split; auto.
Qed.

Lemma checkExceeded_found usage unlimited q n w :
  found usage = Some q ->
  checkExceeded usage unlimited n w
  = (Returned (guard q usage unlimited n),
     logged (guardLog q usage unlimited n) w).
Proof.
  intros [Hq Hne]%found_Some. unfold checkExceeded, guard, guardLog.
  rewrite Hq. destruct (Z.eqb_spec q 0) as [|_]; [contradiction|].
  destruct ((size usage + n >? q) && negb unlimited); simpl.
  - reflexivity.
  - destruct (n >? limit usage); simpl.
    + reflexivity.
    + unfold ret. now rewrite logged_nil.
Qed.

Lemma checkExceeded_missing usage unlimited n w :
  found usage = None ->
  checkExceeded usage unlimited n w = (Thrown QuotaRecordMissing, w).
Proof.
  intros [Hq|Hq]%found_None; unfold checkExceeded; now rewrite Hq.
Qed.

Lemma guard_monotone q usage unlimited n m :
  n <= m -> guard q usage unlimited n = true -> guard q usage unlimited m = true.
Proof.
  unfold guard. intros Hle.
  rewrite !orb_true_iff, !andb_true_iff, !Z.gtb_gt.
  intros [[Hq Hu]|Hl]; [left; split; [lia | exact Hu] | right; lia].
Qed.

Lemma guard_fits q usage unlimited n :
  size usage + n <= q \/ unlimited = true ->
  n <= limit usage ->
  guard q usage unlimited n = false.
Proof.
  intros Hfit Hblob. unfold guard. apply orb_false_iff. split.
  - destruct Hfit as [Hfit| ->].
    + apply andb_false_iff. left. rewrite Z.gtb_ltb. apply Z.ltb_ge. lia.
    + apply andb_false_r.
  - rewrite Z.gtb_ltb. apply Z.ltb_ge. lia.
Qed.

Lemma guardLog_nil q usage unlimited n :
  guard q usage unlimited n = false -> guardLog q usage unlimited n = [].
Proof.
  unfold guard, guardLog. intros [-> ->]%orb_false_iff. reflexivity.
Qed.

(** ** The stream listeners, once the quota record is found *)

Section Found.
Variables (usage : WorkspaceUsage) (unlimited : bool) (q : Z).
Hypothesis Hfound : found usage = Some q.

Let check := checkExceeded usage unlimited.

Lemma onData_found c r w :
  onData check c r w
  = (Returned
       (mkReceiving (chunks r ++ [c])
          (if guard q usage unlimited (bufferSize (chunks r) + Z.of_nat (length c))
           then reject tooLarge (promise r) else promise r)),
     logged (guardLog q usage unlimited
               (bufferSize (chunks r) + Z.of_nat (length c))) w).
Proof.
  unfold onData, check.
  erewrite bind_returned by (apply checkExceeded_found, Hfound).
  rewrite bufferSize_snoc.
  now destruct (guard q usage unlimited _).
Qed.

Lemma emitData_found cs : forall r w,
  emitData check cs r w
  = (Returned
       (mkReceiving (chunks r ++ cs)
          (settleData q usage unlimited (bufferSize (chunks r)) cs (promise r))),
     logged (dataTrace q usage unlimited (bufferSize (chunks r)) cs) w).
Proof.
  induction cs as [|c cs IH]; intros r w; simpl.
  - rewrite app_nil_r, logged_nil. now destruct r.
  - rewrite bind_perform.
    erewrite bind_returned
      by (apply inListener_returned, onData_found).
    rewrite IH, !logged_logged. simpl.
    rewrite bufferSize_snoc, <- app_assoc. reflexivity.
Qed.

Lemma settleData_settled n cs p :
  p <> Pending -> settleData q usage unlimited n cs p = p.
Proof.
  revert n p. induction cs as [|c cs IH]; intros n p Hp; simpl.
  - reflexivity.
  - rewrite IH; destruct p, (guard q usage unlimited _); simpl; congruence.
Qed.

(** Since the guard is monotone, the ['data'] listener has rejected
    exactly when the guard holds of everything received. *)
Lemma settleData_pending n cs :
  settleData q usage unlimited n cs Pending
  = match cs with
    | [] => Pending
    | _ :: _ =>
        if guard q usage unlimited (n + bufferSize cs)
        then Rejected tooLarge else Pending
    end.
Proof.
  revert n. induction cs as [|c cs IH]; intros n; simpl.
  - reflexivity.
  - rewrite bufferSize_cons.
    destruct (guard q usage unlimited (n + Z.of_nat (length c))) eqn:G.
    + simpl. rewrite settleData_settled by discriminate.
      rewrite (guard_monotone q usage unlimited
                 (n + Z.of_nat (length c))); auto.
      pose proof (bufferSize_nonneg cs). lia.
    + rewrite IH. destruct cs as [|c' cs'].
      * replace (n + (Z.of_nat (length c) + bufferSize []))
          with (n + Z.of_nat (length c)) by (unfold bufferSize; simpl; lia).
        now rewrite G.
      * now rewrite Z.add_assoc.
Qed.

Lemma flow_found stream w :
  flow check stream w
  = (Returned (mkReceiving (dataEvents stream)
                 (settled usage unlimited q stream)),
     logged (uploadTrace q usage unlimited stream) w).
Proof.
  unfold flow, settled, uploadTrace. rewrite bind_perform.
  erewrite bind_returned by apply emitData_found.
  cbn [chunks promise]. rewrite settleData_pending, logged_logged.
  change (bufferSize []) with 0. cbn [app].
  destruct (ending stream) as [|reason].
  - unfold inListener, onEnd, check. cbn [chunks promise].
    erewrite bind_returned by (apply checkExceeded_found, Hfound).
    rewrite <- bufferSize_concat, logged_logged.
    destruct (dataEvents stream) as [|c cs] eqn:E;
      destruct (guard q usage unlimited _); reflexivity.
  - unfold inListener, onError, ret. cbn [chunks promise].
    rewrite app_nil_r.
    destruct (dataEvents stream) as [|c cs] eqn:E;
      [|destruct (guard q usage unlimited _)]; reflexivity.
Qed.
End Found.

(** ** The collaborators *)

Lemma checkWorkspace_run this ws user permission w :
  checkWorkspace this ws user permission w
  = (if permits (permissionOf this ws user) (default Read permission)
     then Returned tt else Thrown ForbiddenException,
     logged [PermissionChecked ws user (default Read permission)] w).
Proof.
  unfold checkWorkspace. rewrite bind_perform. cbv beta zeta.
  destruct (permits _ _); reflexivity.
Qed.

Lemma storage_put_run ws name content w :
  storage_put ws name content w
  = if storeOnline w
    then (Returned tt, committed ws name content [StorePut ws name content] w)
    else (Thrown StoreUnavailable, logged [StorePut ws name content] w).
Proof.
  unfold storage_put. rewrite bind_perform.
  unfold whenOnline, logged, committed. simpl.
  destruct (storeOnline w); reflexivity.
Qed.

Lemma storage_delete_run ws name w :
  storage_delete ws name w
  = if storeOnline w
    then (Returned tt,
          mkWorld (delete (ws, name) (blobsOf w)) (storeOnline w)
                  (trace w ++ [StoreDelete ws name]))
    else (Thrown StoreUnavailable, logged [StoreDelete ws name] w).
Proof.
  unfold storage_delete. rewrite bind_perform. unfold whenOnline, logged. simpl.
  destruct (storeOnline w); reflexivity.
Qed.

(** ** [setBlob], case by case *)

Section SetBlob.
Variables (this : WorkspaceBlobResolver) (user : UserType)
          (ws : string) (blob : FileUpload).

Let usage := getWorkspaceUsage this ws.
Let unlimited := hasWorkspaceFeature this ws UnlimitedWorkspace.
Let checked := PermissionChecked ws (userId user) Write.

Lemma setBlob_denied w :
  permits (permissionOf this ws (userId user)) Write = false ->
  setBlob this user ws blob w
  = (Thrown ForbiddenException, logged [checked] w).
Proof.
  intros Hp. unfold setBlob.
  apply bind_thrown.
  rewrite checkWorkspace_run. simpl default. now rewrite Hp.
Qed.

Lemma checkWorkspace_write w :
  permits (permissionOf this ws (userId user)) Write = true ->
  checkWorkspace this ws (userId user) (Some Write) w
  = (Returned tt, logged [checked] w).
Proof.
  intros Hp. rewrite checkWorkspace_run. simpl default. now rewrite Hp.
Qed.

Lemma setBlob_missing w :
  permits (permissionOf this ws (userId user)) Write = true ->
  found usage = None ->
  setBlob this user ws blob w
  = (Thrown QuotaRecordMissing, logged [checked] w).
Proof.
  intros Hp Hq. unfold setBlob.
  erewrite bind_returned by (apply checkWorkspace_write, Hp).
  erewrite bind_thrown by (apply checkExceeded_missing, Hq).
  reflexivity.
Qed.

Lemma setBlob_found q w :
  permits (permissionOf this ws (userId user)) Write = true ->
  found usage = Some q ->
  setBlob this user ws blob w
  = if guard q usage unlimited 0
    then (Thrown tooLarge, logged (checked :: guardLog q usage unlimited 0) w)
    else
      let effects :=
        checked :: uploadTrace q usage unlimited (createReadStream blob) in
      match settled usage unlimited q (createReadStream blob) with
      | Fulfilled buffer =>
          let put := StorePut ws (filename blob) buffer in
          if storeOnline w
          then (Returned (GString (filename blob)),
                committed ws (filename blob) buffer (effects ++ [put]) w)
          else (Thrown StoreUnavailable, logged (effects ++ [put]) w)
      | Rejected reason => (Thrown reason, logged effects w)
      | Pending => (Hangs, logged effects w)
      end.
Proof.
  intros Hp Hq. unfold setBlob.
  erewrite bind_returned by (apply checkWorkspace_write, Hp).
  erewrite bind_returned by (apply checkExceeded_found, Hq).
  rewrite logged_logged. fold usage unlimited checked.
  destruct (guard q usage unlimited 0) eqn:G0; [reflexivity|].
  rewrite (guardLog_nil _ _ _ _ G0).
  erewrite bind_returned by (apply flow_found, Hq).
  rewrite logged_logged. cbn [promise app].
  destruct (settled usage unlimited q (createReadStream blob)) as [|buffer|e];
    try reflexivity.
  erewrite bind_returned by reflexivity.
  unfold bind. rewrite storage_put_run.
  unfold logged, committed, ret. cbn [storeOnline blobsOf trace].
  rewrite <- !app_assoc. now destruct (storeOnline w).
Qed.
End SetBlob.

Lemma settled_after_precheck usage unlimited q stream :
  guard q usage unlimited 0 = false ->
  settled usage unlimited q stream
  = if guard q usage unlimited (bufferSize (dataEvents stream))
    then Rejected tooLarge
    else match ending stream with
         | Ended => Fulfilled (concat (dataEvents stream))
         | Errored reason => Rejected (StreamFailure reason)
         end.
Proof.
  intros G0. unfold settled.
  destruct (dataEvents stream) as [|c cs].
  - change (bufferSize []) with 0. rewrite G0. now destruct (ending stream).
  - destruct (ending stream), (guard q usage unlimited _); reflexivity.
Qed.

Lemma setBlob_verdict this user ws blob w :
  ((setBlob this user ws blob w).1, blobsOf (setBlob this user ws blob w).2)
  = verdict this user ws (filename blob)
      (concat (dataEvents (createReadStream blob)))
      (ending (createReadStream blob)) w.
Proof.
  unfold verdict.
  destruct (permits (permissionOf this ws (userId user)) Write) eqn:Hp.
  2: { now rewrite setBlob_denied. }
  destruct (found (getWorkspaceUsage this ws)) as [q|] eqn:Hq.
  2: { now rewrite setBlob_missing. }
  rewrite (setBlob_found _ _ _ _ q) by assumption.
  rewrite <- bufferSize_concat.
  destruct (guard q _ _ 0) eqn:G0; [reflexivity|].
  rewrite settled_after_precheck by assumption. cbn [orb].
  destruct (guard q _ _ (bufferSize _)); [reflexivity|].
  destruct (ending (createReadStream blob)); [|reflexivity].
  now destruct (storeOnline w).
Qed.

(** [setBlob] always comes back to its caller: no exception escapes a
    listener and the promise it awaits is always settled. *)
Lemma setBlob_total this user ws blob w :
  (exists v, (setBlob this user ws blob w).1 = Returned v)
  \/ (exists e, (setBlob this user ws blob w).1 = Thrown e).
Proof.
  pose proof (setBlob_verdict this user ws blob w) as V.
  apply (f_equal fst) in V. cbn [fst] in V. rewrite V. unfold verdict.
  repeat match goal with
         | |- context [if ?b then _ else _] => destruct b
         | |- context [match ?x with _ => _ end] => destruct x
         end; cbn [fst]; eauto.
Qed.

(** ** The two scenarios of the specification

    900 bytes used of 1000, blobs of up to 2000 bytes, not unlimited. *)

Example scenario_fits :
  let this := service (Some Write) (Some 1000) 900 2000 false in
  let blob := mkUpload "a" (mkStream [bytes 20; bytes 20; bytes 10] Ended) in
  (setBlob this alice "w" blob emptyWorld).1 = Returned (GString "a")
  /\ blobsOf (setBlob this alice "w" blob emptyWorld).2 !! ("w", "a")
     = Some (bytes 50).
Proof. cbn zeta. split; vm_compute; reflexivity. Qed.

Example scenario_over :
  let this := service (Some Write) (Some 1000) 900 2000 false in
  let blob := mkUpload "a" (mkStream [bytes 60; bytes 60; bytes 30] Ended) in
  setBlob this alice "w" blob emptyWorld
  = (Thrown tooLarge,
     logged [PermissionChecked "w" "alice" Write; StreamCreated;
             ChunkReceived (bytes 60);
             ChunkReceived (bytes 60); LogStorageExceeded 1020 1000;
             ChunkReceived (bytes 30); LogStorageExceeded 1050 1000;
             LogStorageExceeded 1050 1000] emptyWorld).
Proof. cbn zeta. vm_compute. reflexivity. Qed.

(** * The claims *)

(** ** C2: what the guard answers *)

(** C2, as stated, fails: with a quota limit that is present but 0, a
    non-unlimited workspace and one received byte, the aggregate clause
    [usedBytes + observedSize > quotaLimitBytes AND NOT unlimited] holds,
    yet [checkExceeded] does not return [true]: it throws. *)
Lemma checkExceeded_zero_limit_does_not_return :
  let usage := mkUsage (Some 0) 0 10 in
  ((size usage + 1 > 0 /\ false = false) \/ 1 > limit usage)
  /\ (checkExceeded usage false 1 emptyWorld).1
     = Thrown (GraphQLError "cannot find user quota" FORBIDDEN)
  /\ ~ ((checkExceeded usage false 1 emptyWorld).1 = Returned true
        <-> (size usage + 1 > 0 /\ false = false) \/ 1 > limit usage).
Proof.
  cbn zeta. split; [left; split; [reflexivity | reflexivity]|].
  split; [reflexivity|].
  intros [_ H]. discriminate H. left. split; reflexivity.
Qed.

(** C2, amended: when the quota limit is present and is not 0, and the
    numbers involved ([quota], [size], [limit], [recvSize] and
    [size + recvSize]) are safe integers, [checkExceeded] returns a
    boolean, and it returns [true] exactly when [size + recvSize > quota]
    on a workspace that is not unlimited, or else [recvSize > limit]; in
    particular an unlimited workspace is still held to the per-blob
    limit. *)
Theorem checkExceeded_iff usage unlimited recvSize w q :
  quota usage = Some q -> q <> 0 ->
  safeSizes usage recvSize ->
  ((checkExceeded usage unlimited recvSize w).1 = Returned true
   <-> (size usage + recvSize > q /\ unlimited = false)
       \/ recvSize > limit usage)
  /\ ((checkExceeded usage unlimited recvSize w).1 = Returned true
      \/ (checkExceeded usage unlimited recvSize w).1 = Returned false)
  /\ (unlimited = true -> recvSize > limit usage ->
      (checkExceeded usage unlimited recvSize w).1 = Returned true).
Proof.
  intros Hq Hne _.
  assert (Hf : found usage = Some q) by (apply found_Some; auto).
  rewrite (checkExceeded_found _ _ q) by exact Hf. cbn [fst].
  assert (G : guard q usage unlimited recvSize = true
              <-> (size usage + recvSize > q /\ unlimited = false)
                  \/ recvSize > limit usage).
  { unfold guard.
    rewrite orb_true_iff, andb_true_iff, negb_true_iff, !Z.gtb_gt.
    reflexivity. }
  repeat split.
  - intros [= H]. now apply G.
  - intros H. f_equal. now apply G.
  - destruct (guard q usage unlimited recvSize); auto.
  - intros _ Hl. f_equal. apply G. now right.
Qed.

Lemma checkExceeded_iff_witness :
  let usage := mkUsage (Some 1000) 900 2000 in
  ((checkExceeded usage true 2001 emptyWorld).1 = Returned true
   <-> (size usage + 2001 > 1000 /\ true = false) \/ 2001 > limit usage)
  /\ ((checkExceeded usage true 2001 emptyWorld).1 = Returned true
      \/ (checkExceeded usage true 2001 emptyWorld).1 = Returned false)
  /\ (checkExceeded usage true 2001 emptyWorld).1 = Returned true.
Proof.
  cbn zeta.
  destruct (checkExceeded_iff (mkUsage (Some 1000) 900 2000) true 2001
              emptyWorld 1000) as [H1 [H2 H3]].
  - reflexivity.
  - lia.
  - repeat split; vm_compute; discriminate.
  - split; [exact H1|]. split; [exact H2|].
    apply H3.
    + reflexivity.
    + simpl. lia.
Defined.

(** ** C4 and C9: the quota record that cannot be found *)

(** C4: when the workspace's quota limit is absent, [setBlob] (called by
    a user who may write) throws the 'cannot find user quota' error,
    which is not a size-limit error, and does so having performed nothing
    but the permission check: no stream is created and no chunk is
    received. *)
Theorem setBlob_quota_absent this user ws blob w :
  permits (permissionOf this ws (userId user)) Write = true ->
  quota (getWorkspaceUsage this ws) = None ->
  setBlob this user ws blob w
  = (Thrown QuotaRecordMissing,
     logged [PermissionChecked ws (userId user) Write] w)
  /\ isQuotaExceeded QuotaRecordMissing = false
  /\ chunksReceived (performed w (setBlob this user ws blob w).2) = []
  /\ StreamCreated ∉ performed w (setBlob this user ws blob w).2.
Proof.
  intros Hp Hq.
  rewrite setBlob_missing by (auto; apply found_None; auto).
  cbn [snd]. rewrite performed_logged.
  repeat split. intros H. apply list_elem_of_singleton in H. discriminate H.
Qed.

Lemma setBlob_quota_absent_witness :
  let this := service (Some Write) None 0 2000 false in
  let blob := mkUpload "a" (mkStream [bytes 2; bytes 3] Ended) in
  setBlob this alice "w" blob emptyWorld
  = (Thrown QuotaRecordMissing,
     logged [PermissionChecked "w" "alice" Write] emptyWorld)
  /\ isQuotaExceeded QuotaRecordMissing = false
  /\ chunksReceived (performed emptyWorld
                       (setBlob this alice "w" blob emptyWorld).2) = []
  /\ StreamCreated ∉ performed emptyWorld
                       (setBlob this alice "w" blob emptyWorld).2.
Proof.
  apply (setBlob_quota_absent (service (Some Write) None 0 2000 false) alice
           "w" (mkUpload "a" (mkStream [bytes 2; bytes 3] Ended)) emptyWorld).
  - reflexivity.
  - reflexivity.
Defined.

(** C9: when the quota record exists but its limit is exactly 0,
    [setBlob] (called by a user who may write) throws 'cannot find user
    quota' with status FORBIDDEN, not the PAYLOAD_TOO_LARGE error,
    whatever is uploaded. *)
Theorem setBlob_quota_zero this user ws blob w :
  permits (permissionOf this ws (userId user)) Write = true ->
  quota (getWorkspaceUsage this ws) = Some 0 ->
  (setBlob this user ws blob w).1
  = Thrown (GraphQLError "cannot find user quota" FORBIDDEN)
  /\ isQuotaExceeded (GraphQLError "cannot find user quota" FORBIDDEN) = false.
Proof.
  intros Hp Hq.
  rewrite setBlob_missing by (auto; apply found_None; auto).
  split; reflexivity.
Qed.

Lemma setBlob_quota_zero_witness :
  let this := service (Some Write) (Some 0) 0 2000 false in
  let blob := mkUpload "a" (mkStream [bytes 2; bytes 3] Ended) in
  (setBlob this alice "w" blob emptyWorld).1
  = Thrown (GraphQLError "cannot find user quota" FORBIDDEN)
  /\ isQuotaExceeded (GraphQLError "cannot find user quota" FORBIDDEN) = false.
Proof.
  apply (setBlob_quota_zero (service (Some Write) (Some 0) 0 2000 false) alice
           "w" (mkUpload "a" (mkStream [bytes 2; bytes 3] Ended)) emptyWorld).
  - reflexivity.
  - reflexivity.
Defined.

(** ** C1: over the workspace quota, however the payload is chunked *)

(** C1, as stated, fails: on a workspace that is not unlimited, whose
    quota limit is 0 and which stores nothing yet, a one-byte upload has
    [usedBytes + finalSize > quotaLimitBytes], but [setBlob] fails with
    'cannot find user quota', which is not the size-limit error. *)
Lemma setBlob_zero_limit_not_QuotaExceeded :
  let this := service (Some Write) (Some 0) 0 10 false in
  let blob := mkUpload "a" (mkStream [bytes 1] Ended) in
  size (getWorkspaceUsage this "w")
    + Z.of_nat (length (concat (dataEvents (createReadStream blob)))) > 0
  /\ (setBlob this alice "w" blob emptyWorld).1
     = Thrown (GraphQLError "cannot find user quota" FORBIDDEN)
  /\ ~ (exists e, (setBlob this alice "w" blob emptyWorld).1 = Thrown e
                  /\ isQuotaExceeded e = true).
Proof.
  cbn zeta. split; [reflexivity|]. split; [reflexivity|].
  intros [e [H1 H2]]. vm_compute in H1. injection H1 as <-. discriminate H2.
Qed.

(** C1, amended: two uploads of the same bytes under the same name, with
    the stream closing the same way, end alike ([setBlob] returns the same
    value or throws the same error, and leaves the same store) whatever
    the chunk boundaries; and when the workspace is not unlimited, its
    quota limit is present and not 0, the caller may write, the numbers
    involved ([quota], [size], [limit], [finalSize] and
    [size + finalSize]) are safe integers, and [size + finalSize > quota],
    that common end is the PAYLOAD_TOO_LARGE error 'storage or blob size
    limit exceeded'. *)
Theorem setBlob_chunking_irrelevant this user ws name closing cs1 cs2 w :
  concat cs1 = concat cs2 ->
  let r1 := setBlob this user ws (mkUpload name (mkStream cs1 closing)) w in
  let r2 := setBlob this user ws (mkUpload name (mkStream cs2 closing)) w in
  r1.1 = r2.1
  /\ blobsOf r1.2 = blobsOf r2.2
  /\ (forall q,
        permits (permissionOf this ws (userId user)) Write = true ->
        hasWorkspaceFeature this ws UnlimitedWorkspace = false ->
        quota (getWorkspaceUsage this ws) = Some q -> q <> 0 ->
        safeSizes (getWorkspaceUsage this ws)
                  (Z.of_nat (length (concat cs1))) ->
        size (getWorkspaceUsage this ws) + Z.of_nat (length (concat cs1)) > q ->
        r1.1 = Thrown (GraphQLError "storage or blob size limit exceeded"
                                    PAYLOAD_TOO_LARGE)
        /\ isQuotaExceeded (GraphQLError "storage or blob size limit exceeded"
                                         PAYLOAD_TOO_LARGE) = true).
Proof.
  intros Hc r1 r2.
  pose proof (setBlob_verdict this user ws
                (mkUpload name (mkStream cs1 closing)) w) as V1.
  pose proof (setBlob_verdict this user ws
                (mkUpload name (mkStream cs2 closing)) w) as V2.
  cbn [filename createReadStream dataEvents ending] in V1, V2.
  fold r1 in V1. fold r2 in V2. rewrite <- Hc in V2.
  split; [|split].
  - apply (f_equal fst) in V1, V2. cbn [fst] in V1, V2. congruence.
  - apply (f_equal snd) in V1, V2. cbn [snd] in V1, V2. congruence.
  - intros q Hp Hu Hq Hne _ Hover. split; [|reflexivity].
    apply (f_equal fst) in V1. cbn [fst] in V1. rewrite V1.
    unfold verdict. rewrite Hp, Hu.
    assert (Hf : found (getWorkspaceUsage this ws) = Some q)
      by (apply found_Some; auto).
    rewrite Hf.
    assert (G : guard q (getWorkspaceUsage this ws) false
                  (Z.of_nat (length (concat cs1))) = true).
    { unfold guard. apply orb_true_iff. left.
      apply andb_true_iff. split; [apply Z.gtb_gt; lia | reflexivity]. }
    rewrite G, orb_true_r. reflexivity.
Qed.

Lemma setBlob_chunking_irrelevant_witness :
  let this := service (Some Write) (Some 1000) 900 2000 false in
  let one := [bytes 150] in
  let many := [bytes 20; bytes 0; bytes 100; bytes 30] in
  let r1 := setBlob this alice "w" (mkUpload "a" (mkStream one Ended))
              emptyWorld in
  let r2 := setBlob this alice "w" (mkUpload "a" (mkStream many Ended))
              emptyWorld in
  r1.1 = r2.1
  /\ blobsOf r1.2 = blobsOf r2.2
  /\ r1.1 = Thrown (GraphQLError "storage or blob size limit exceeded"
                                 PAYLOAD_TOO_LARGE)
  /\ isQuotaExceeded (GraphQLError "storage or blob size limit exceeded"
                                   PAYLOAD_TOO_LARGE) = true.
Proof.
  cbn zeta.
  destruct (setBlob_chunking_irrelevant
              (service (Some Write) (Some 1000) 900 2000 false) alice "w" "a"
              Ended [bytes 150] [bytes 20; bytes 0; bytes 100; bytes 30]
              emptyWorld) as [H1 [H2 H3]].
  - reflexivity.
  - split; [exact H1|]. split; [exact H2|].
    apply (H3 1000).
    + reflexivity.
    + reflexivity.
    + reflexivity.
    + lia.
    + repeat split; vm_compute; discriminate.
    + vm_compute. reflexivity.
Defined.

(** ** C8: re-summing the buffer against a running counter *)

Section Running.
Variable check : Z -> M bool.

(** The two ['data'] listeners move in lockstep as long as the counter
    equals the size of the buffer, and they keep it so. *)
Lemma onData_running_sim chunk r w :
  runningSize r = bufferSize (chunksC r) ->
  match onData_running check chunk r w with
  | (Returned r', w') =>
      onData check chunk (forget r) w = (Returned (forget r'), w')
      /\ runningSize r' = bufferSize (chunksC r')
  | (Thrown e, w') => onData check chunk (forget r) w = (Thrown e, w')
  | (Crashed e, w') => onData check chunk (forget r) w = (Crashed e, w')
  | (Hangs, w') => onData check chunk (forget r) w = (Hangs, w')
  end.
Proof.
  intros Inv. unfold onData_running, onData, bind, forget.
  cbn [chunks promise]. rewrite bufferSize_snoc, <- Inv.
  destruct (check (runningSize r + Z.of_nat (length chunk)) w)
    as [[[]| | |] w']; unfold ret; cbn [chunksC runningSize promiseC];
    try reflexivity;
    (split; [reflexivity | now rewrite bufferSize_snoc, Inv]).
Qed.

Lemma emitData_running_sim cs : forall r w,
  runningSize r = bufferSize (chunksC r) ->
  match emitData_running check cs r w with
  | (Returned r', w') =>
      emitData check cs (forget r) w = (Returned (forget r'), w')
      /\ runningSize r' = bufferSize (chunksC r')
  | (Thrown e, w') => emitData check cs (forget r) w = (Thrown e, w')
  | (Crashed e, w') => emitData check cs (forget r) w = (Crashed e, w')
  | (Hangs, w') => emitData check cs (forget r) w = (Hangs, w')
  end.
Proof.
  induction cs as [|c cs IH]; intros r w Inv; simpl.
  - auto.
  - rewrite !bind_perform.
    pose proof (onData_running_sim c r (logged [ChunkReceived c] w) Inv) as S.
    unfold bind, inListener.
    destruct (onData_running check c r (logged [ChunkReceived c] w))
      as [[r'| | |] w'].
    + destruct S as [-> Inv']. apply IH, Inv'.
    + now rewrite S.
    + now rewrite S.
    + now rewrite S.
Qed.

Lemma flow_running_sim stream w :
  match flow_running check stream w with
  | (Returned r', w') => flow check stream w = (Returned (forget r'), w')
  | (Thrown e, w') => flow check stream w = (Thrown e, w')
  | (Crashed e, w') => flow check stream w = (Crashed e, w')
  | (Hangs, w') => flow check stream w = (Hangs, w')
  end.
Proof.
  unfold flow_running, flow. rewrite !bind_perform.
  pose proof (emitData_running_sim (dataEvents stream)
                (mkCounted [] 0 Pending) (logged [StreamCreated] w)
                eq_refl) as S.
  change (forget (mkCounted [] 0 Pending)) with (mkReceiving [] Pending) in S.
  unfold bind.
  destruct (emitData_running check (dataEvents stream) _ _)
    as [[r| | |] w'].
  - destruct S as [-> Inv].
    destruct (ending stream) as [|reason].
    + unfold inListener, onEnd_running, onEnd, bind, forget.
      cbn [chunks promise].
      rewrite <- bufferSize_concat, <- Inv.
      destruct (check (runningSize r) w') as [[[]| | |] w'']; reflexivity.
    + reflexivity.
  - now rewrite S.
  - now rewrite S.
  - now rewrite S.
Qed.

Lemma bind_flow_running {B} (k : PromiseState -> M B) stream w :
  bind (flow_running check stream) (fun r => k (promiseC r)) w
  = bind (flow check stream) (fun r => k (promise r)) w.
Proof.
  pose proof (flow_running_sim stream w) as S. unfold bind.
  destruct (flow_running check stream w) as [[r| | |] w'];
    rewrite S; reflexivity.
Qed.
End Running.

(** C8: appending a chunk and re-summing the lengths of all buffered
    chunks gives the previous sum plus the new chunk's length, that is,
    the value of a counter updated incrementally; and [setBlob] written
    with such a counter ends exactly as the source's [setBlob] does, in
    every world: same result, same store, same trace of effects. *)
Theorem setBlob_running_equiv :
  (forall (cs : list Chunk) (c : Chunk),
     bufferSize (cs ++ [c]) = bufferSize cs + Z.of_nat (length c))
  /\ (forall this user ws blob w,
        setBlob_running this user ws blob w = setBlob this user ws blob w).
Proof.
  split; [apply bufferSize_snoc|].
  intros this user ws blob w. unfold setBlob_running, setBlob.
  apply bind_cong. intros _ w1.
  apply bind_cong. intros exceeded w2.
  destruct exceeded; [reflexivity|].
  apply (bind_flow_running _
           (fun p => buffer <- await p ;;
                     storage_put ws (filename blob) buffer ;;
                     ret (GString (filename blob)))).
Qed.

(** ** C3: what happens to the stream once the guard has tripped *)

Lemma chunksReceived_app l1 l2 :
  chunksReceived (l1 ++ l2) = chunksReceived l1 ++ chunksReceived l2.
Proof. unfold chunksReceived. apply omap_app. Qed.

Lemma chunksReceived_guardLog q usage unlimited n :
  chunksReceived (guardLog q usage unlimited n) = [].
Proof.
  unfold guardLog.
  destruct (_ && _); [reflexivity|]. now destruct (_ >? _).
Qed.

Lemma chunksReceived_dataTrace q usage unlimited cs : forall n,
  chunksReceived (dataTrace q usage unlimited n cs) = cs.
Proof.
  induction cs as [|c cs IH]; intros n; simpl.
  - reflexivity.
  - change (ChunkReceived c :: ?l) with ([ChunkReceived c] ++ l).
    rewrite !chunksReceived_app, chunksReceived_guardLog, IH. reflexivity.
Qed.

(** Once the first check has passed, the ['data'] listener is run on
    every chunk the stream emits, whether or not some earlier chunk
    already made it reject the promise. *)
Lemma setBlob_receives_every_chunk this user ws blob w q :
  permits (permissionOf this ws (userId user)) Write = true ->
  found (getWorkspaceUsage this ws) = Some q ->
  guard q (getWorkspaceUsage this ws)
        (hasWorkspaceFeature this ws UnlimitedWorkspace) 0 = false ->
  chunksReceived (performed w (setBlob this user ws blob w).2)
  = dataEvents (createReadStream blob).
Proof.
  intros Hp Hq G0. rewrite (setBlob_found _ _ _ _ q) by assumption.
  rewrite G0. cbn zeta.
  assert (E : chunksReceived
                (PermissionChecked ws (userId user) Write
                 :: uploadTrace q (getWorkspaceUsage this ws)
                      (hasWorkspaceFeature this ws UnlimitedWorkspace)
                      (createReadStream blob))
              = dataEvents (createReadStream blob)).
  { unfold uploadTrace.
    change (?a :: ?b :: ?l) with ([a; b] ++ l).
    rewrite !chunksReceived_app, chunksReceived_dataTrace.
    destruct (ending (createReadStream blob));
      [rewrite chunksReceived_guardLog|]; simpl; now rewrite app_nil_r. }
  destruct (settled _ _ _ _) as [|buffer|reason]; cbn [snd].
  - now rewrite performed_logged.
  - destruct (storeOnline w); cbn [snd].
    + unfold performed, committed. cbn [trace]. rewrite drop_app_length.
      rewrite chunksReceived_app, E. simpl. now rewrite app_nil_r.
    + rewrite performed_logged, chunksReceived_app, E. simpl.
      now rewrite app_nil_r.
  - now rewrite performed_logged.
Qed.

(** C3, evaluated where it fails: 9 bytes used of a quota of 10, and an
    upload arriving as chunks of 2, 3 and 4 bytes.  The first chunk trips
    the guard and the call fails with PAYLOAD_TOO_LARGE, but the listener
    still receives the second and third chunks and appends them to the
    buffer. *)
Theorem setBlob_keeps_reading_after_guard_trips :
  let this := service (Some Write) (Some 10) 9 20 false in
  let stream := mkStream [bytes 2; bytes 3; bytes 4] Ended in
  let check := checkExceeded (getWorkspaceUsage this "w") false in
  (check 2 emptyWorld).1 = Returned true
  /\ (setBlob this alice "w" (mkUpload "a" stream) emptyWorld).1
     = Thrown (GraphQLError "storage or blob size limit exceeded"
                            PAYLOAD_TOO_LARGE)
  /\ chunksReceived
       (performed emptyWorld
          (setBlob this alice "w" (mkUpload "a" stream) emptyWorld).2)
     = [bytes 2; bytes 3; bytes 4]
  /\ (flow check stream emptyWorld).1
     = Returned (mkReceiving [bytes 2; bytes 3; bytes 4]
                   (Rejected (GraphQLError "storage or blob size limit exceeded"
                                           PAYLOAD_TOO_LARGE))).
Proof. cbn zeta. repeat split; vm_compute; reflexivity. Qed.

(** ** C5: a failed upload leaves the store and the cache alone *)

Lemma PreventCache_run {A} tags ws (handler : M A) w :
  PreventCache tags ws handler w
  = match handler w with
    | (Returned a, w') => (Returned a, logged [CacheInvalidated tags ws] w')
    | r => r
    end.
Proof.
  unfold PreventCache, bind.
  destruct (handler w) as [[a| | |] w']; reflexivity.
Qed.

Lemma guardLog_harmless q usage unlimited n :
  Forall harmless (guardLog q usage unlimited n).
Proof.
  unfold guardLog.
  destruct (_ && _); [repeat constructor|].
  destruct (_ >? _); repeat constructor.
Qed.

Lemma dataTrace_harmless q usage unlimited cs : forall n,
  Forall harmless (dataTrace q usage unlimited n cs).
Proof.
  induction cs as [|c cs IH]; intros n; simpl.
  - constructor.
  - constructor; [split; reflexivity|].
    apply Forall_app. split; [apply guardLog_harmless | apply IH].
Qed.

Lemma uploadTrace_harmless q usage unlimited stream :
  Forall harmless (uploadTrace q usage unlimited stream).
Proof.
  unfold uploadTrace. constructor; [split; reflexivity|].
  apply Forall_app. split; [apply dataTrace_harmless|].
  destruct (ending stream); [apply guardLog_harmless | constructor].
Qed.

(** C5: whenever the [setBlob] mutation does not return (it throws
    FORBIDDEN, 'cannot find user quota', a PAYLOAD_TOO_LARGE error from
    any of the three checks, or the stream's error), the store holds what
    it held before, the call issued no [put], and no cache invalidation
    took place.  (The one remaining failure, the store refusing the
    [put], also leaves the store and the cache as they were.) *)
Theorem setBlobMutation_failure_is_clean this user ws blob w :
  let r := setBlobMutation this user ws blob w in
  (forall v, r.1 <> Returned v) ->
  blobsOf r.2 = blobsOf w
  /\ Forall (fun e => isCacheInvalidated e = false) (performed w r.2)
  /\ (r.1 <> Thrown StoreUnavailable ->
      Forall (fun e => isStorePut e = false) (performed w r.2)).
Proof.
  cbn zeta. unfold setBlobMutation. rewrite PreventCache_run.
  assert (Hc : forall l, Forall harmless l ->
                 Forall (fun e => isCacheInvalidated e = false) l).
  { intros l H. eapply Forall_impl; [exact H|]. now intros e [_ ?]. }
  assert (Hs : forall l, Forall harmless l ->
                 Forall (fun e => isStorePut e = false) l).
  { intros l H. eapply Forall_impl; [exact H|]. now intros e [? _]. }
  assert (Hchecked : harmless (PermissionChecked ws (userId user) Write))
    by (split; reflexivity).
  destruct (permits (permissionOf this ws (userId user)) Write) eqn:Hp.
  2: { rewrite setBlob_denied by assumption. cbn [fst snd]. intros _.
       rewrite performed_logged. repeat split; auto. }
  destruct (found (getWorkspaceUsage this ws)) as [q|] eqn:Hq.
  2: { rewrite setBlob_missing by assumption. cbn [fst snd]. intros _.
       rewrite performed_logged. repeat split; auto. }
  rewrite (setBlob_found _ _ _ _ q) by assumption. cbn zeta.
  destruct (guard q _ _ 0).
  { cbn [fst snd]. intros _. rewrite performed_logged.
    pose proof (guardLog_harmless q (getWorkspaceUsage this ws)
                  (hasWorkspaceFeature this ws UnlimitedWorkspace) 0).
    repeat split; auto. }
  pose proof (uploadTrace_harmless q (getWorkspaceUsage this ws)
                (hasWorkspaceFeature this ws UnlimitedWorkspace)
                (createReadStream blob)) as Hup.
  destruct (settled _ _ _ _) as [|buffer|reason].
  - cbn [fst snd]. intros _. rewrite performed_logged. repeat split; auto.
  - destruct (storeOnline w).
    + cbn [fst]. intros H. now destruct (H (GString (filename blob))).
    + cbn [fst snd]. intros _. rewrite performed_logged.
      split; [reflexivity|]. split.
      * apply Forall_app. split; [auto | repeat constructor].
      * intros H. now destruct H.
  - cbn [fst snd]. intros _. rewrite performed_logged. repeat split; auto.
Qed.

Lemma setBlobMutation_failure_is_clean_witness :
  let this := service (Some Write) (Some 10) 9 20 false in
  let blob := mkUpload "a" (mkStream [bytes 2; bytes 3] Ended) in
  let w := mkWorld {[ ("w", "old") := bytes 1 ]} true [] in
  let r := setBlobMutation this alice "w" blob w in
  blobsOf r.2 = blobsOf w
  /\ Forall (fun e => isCacheInvalidated e = false) (performed w r.2)
  /\ Forall (fun e => isStorePut e = false) (performed w r.2).
Proof.
  cbn zeta.
  destruct (setBlobMutation_failure_is_clean
              (service (Some Write) (Some 10) 9 20 false) alice "w"
              (mkUpload "a" (mkStream [bytes 2; bytes 3] Ended))
              (mkWorld {[ ("w", "old") := bytes 1 ]} true []))
    as [H1 [H2 H3]].
  - intros v. vm_compute. discriminate.
  - split; [exact H1|]. split; [exact H2|].
    apply H3. vm_compute. discriminate.
Defined.

(** ** C6: what a successful upload returns *)

(** C6, as stated, fails: a successful three-byte upload named "a"
    returns the string "a", not the number 3. *)
Lemma setBlob_returns_name_not_size :
  let this := service (Some Write) (Some 1000) 900 2000 false in
  let blob := mkUpload "a" (mkStream [bytes 1; bytes 2] Ended) in
  let r := setBlob this alice "w" blob emptyWorld in
  r.1 = Returned (GString "a")
  /\ blobsOf r.2 !! ("w", "a") = Some (bytes 3)
  /\ r.1 <> Returned (GInt (Z.of_nat (length (bytes 3)))).
Proof.
  cbn zeta. split; [vm_compute; reflexivity|].
  split; [vm_compute; reflexivity|].
  vm_compute. discriminate.
Qed.

(** C6, amended: when [setBlob] succeeds it returns the blob's file name,
    and the store then holds, under that name, all the bytes the stream
    delivered.  It does succeed whenever the caller may write, the quota
    limit is present and not 0, the received bytes respect the per-blob
    limit and (unless the workspace is unlimited) the remaining quota, the
    stream ends normally and the store answers. *)
Theorem setBlob_returns_filename this user ws blob w :
  let usage := getWorkspaceUsage this ws in
  let unlimited := hasWorkspaceFeature this ws UnlimitedWorkspace in
  let received := concat (dataEvents (createReadStream blob)) in
  (forall v w',
     setBlob this user ws blob w = (Returned v, w') ->
     v = GString (filename blob)
     /\ blobsOf w' !! (ws, filename blob) = Some received)
  /\ (forall q,
        permits (permissionOf this ws (userId user)) Write = true ->
        quota usage = Some q -> q <> 0 ->
        size usage + Z.of_nat (length received) <= q \/ unlimited = true ->
        Z.of_nat (length received) <= limit usage ->
        ending (createReadStream blob) = Ended ->
        storeOnline w = true ->
        (setBlob this user ws blob w).1 = Returned (GString (filename blob))).
Proof.
  cbn zeta. pose proof (setBlob_verdict this user ws blob w) as V. split.
  - intros v w' E. rewrite E in V. cbn [fst snd] in V. unfold verdict in V.
    repeat match type of V with
           | context [if ?b then _ else _] => destruct b
           | context [match ?x with _ => _ end] => destruct x
           end; try discriminate V.
    injection V as -> ->. split; [reflexivity|]. apply lookup_insert_eq.
  - intros q Hp Hq Hne Hfit Hblob Hend Hon.
    apply (f_equal fst) in V. cbn [fst] in V. rewrite V. unfold verdict.
    assert (Hf : found (getWorkspaceUsage this ws) = Some q)
      by (apply found_Some; auto).
    rewrite Hp, Hf, Hend, Hon.
    rewrite (guard_fits q _ _ _ Hfit Hblob).
    rewrite (guard_fits q _ _ 0); [reflexivity| |lia].
    destruct Hfit as [Hfit|Hfit]; [left; lia | right; exact Hfit].
Qed.

Lemma setBlob_returns_filename_witness :
  let this := service (Some Write) (Some 1000) 900 2000 false in
  let blob := mkUpload "a" (mkStream [bytes 20; bytes 20; bytes 10] Ended) in
  (GString "a" = GString (filename blob)
   /\ blobsOf (setBlob this alice "w" blob emptyWorld).2 !! ("w", filename blob)
      = Some (concat (dataEvents (createReadStream blob))))
  /\ (setBlob this alice "w" blob emptyWorld).1
     = Returned (GString (filename blob)).
Proof.
  cbn zeta.
  destruct (setBlob_returns_filename
              (service (Some Write) (Some 1000) 900 2000 false) alice "w"
              (mkUpload "a" (mkStream [bytes 20; bytes 20; bytes 10] Ended))
              emptyWorld) as [H1 H2].
  split.
  - apply H1. vm_compute. reflexivity.
  - apply (H2 1000).
    + reflexivity.
    + reflexivity.
    + lia.
    + left. vm_compute. discriminate.
    + vm_compute. discriminate.
    + reflexivity.
    + reflexivity.
Defined.

(** ** C7: which operations check the caller before reaching the store *)

(** [blobs] and [deleteBlob] ask the permission service first, and a
    caller it turns away never reaches the store. *)
Lemma blobs_guarded this user workspace w :
  permits (permissionOf this (workspaceIdOf workspace) (userId user)) Read
  = false ->
  blobs this user workspace w
  = (Thrown ForbiddenException,
     logged [PermissionChecked (workspaceIdOf workspace) (userId user) Read] w).
Proof.
  intros Hp. unfold blobs. apply bind_thrown.
  rewrite checkWorkspace_run. simpl default. now rewrite Hp.
Qed.

Lemma deleteBlob_guarded this user ws name w :
  permits (permissionOf this ws (userId user)) Read = false ->
  deleteBlob this user ws name w
  = (Thrown ForbiddenException,
     logged [PermissionChecked ws (userId user) Read] w).
Proof.
  intros Hp. unfold deleteBlob. apply bind_thrown.
  rewrite checkWorkspace_run. simpl default. now rewrite Hp.
Qed.

(** [blobsSize] goes to the store directly, whoever calls it. *)
Lemma blobsSize_run this workspace w :
  blobsSize this workspace w
  = (if storeOnline w
     then Returned (GInt (foldr Z.add 0
                            (snd <$> itemsOf (workspaceIdOf workspace)
                                       (blobsOf w))))
     else Thrown StoreUnavailable,
     logged [StoreTotalSize (workspaceIdOf workspace)] w).
Proof.
  unfold blobsSize, storage_totalSize, bind, perform, whenOnline, logged.
  cbn [storeOnline blobsOf trace]. now destruct (storeOnline w).
Qed.

(** C7, evaluated where it fails: nobody holds any permission on
    workspace "w", which stores one three-byte blob.  [blobs] and
    [deleteBlob] refuse with FORBIDDEN and leave the store untouched, but
    [blobsSize] performs no permission check, queries the store and
    returns 3. *)
Theorem blobsSize_skips_permission_check :
  let this := service None (Some 1000) 0 2000 false in
  let w := mkWorld {[ ("w", "a") := bytes 3 ]} true [] in
  blobsSize this (mkWorkspace "w") w
  = (Returned (GInt 3), logged [StoreTotalSize "w"] w)
  /\ blobs this alice (mkWorkspace "w") w
     = (Thrown ForbiddenException,
        logged [PermissionChecked "w" "alice" Read] w)
  /\ deleteBlob this alice "w" "a" w
     = (Thrown ForbiddenException,
        logged [PermissionChecked "w" "alice" Read] w).
Proof. cbn zeta. repeat split; vm_compute; reflexivity. Qed.

(** ** C10: the permission [deleteBlob] asks for *)

(** C10: [deleteBlob] asks only for the default, read-level permission:
    for a caller who may read the workspace (and a store that answers)
    it returns [true], having checked the Read level and deleted the
    blob, which the store then no longer holds.  [setBlob] asks for
    Write: a caller who may not write is refused with FORBIDDEN after
    the permission check alone, before any quota check or stream read. *)
Theorem deleteBlob_needs_read_setBlob_needs_write this user ws name blob w :
  (permits (permissionOf this ws (userId user)) Read = true ->
   storeOnline w = true ->
   deleteBlob this user ws name w
   = (Returned (GBoolean true),
      mkWorld (delete (ws, name) (blobsOf w)) true
              (trace w ++ [PermissionChecked ws (userId user) Read;
                           StoreDelete ws name]))
   /\ blobsOf (deleteBlob this user ws name w).2 !! (ws, name) = None)
  /\ (permits (permissionOf this ws (userId user)) Write = false ->
      setBlob this user ws blob w
      = (Thrown ForbiddenException,
         logged [PermissionChecked ws (userId user) Write] w)).
Proof.
  split.
  - intros Hp Hon.
    assert (E : deleteBlob this user ws name w
                = (Returned (GBoolean true),
                   mkWorld (delete (ws, name) (blobsOf w)) true
                     (trace w ++ [PermissionChecked ws (userId user) Read;
                                  StoreDelete ws name]))).
    { unfold deleteBlob.
      erewrite bind_returned
        by (rewrite checkWorkspace_run; simpl default; now rewrite Hp).
      unfold bind. rewrite storage_delete_run.
      unfold logged. cbn [storeOnline blobsOf trace]. rewrite Hon.
      unfold ret. now rewrite <- app_assoc. }
    split; [exact E|]. rewrite E. cbn [snd blobsOf]. apply lookup_delete_eq.
  - apply setBlob_denied.
Qed.

Lemma deleteBlob_needs_read_setBlob_needs_write_witness :
  let this := service (Some Read) (Some 1000) 0 2000 false in
  let blob := mkUpload "b" (mkStream [bytes 2] Ended) in
  let w := mkWorld {[ ("w", "a") := bytes 3 ]} true [] in
  (deleteBlob this alice "w" "a" w
   = (Returned (GBoolean true),
      mkWorld (delete ("w", "a") (blobsOf w)) true
              (trace w ++ [PermissionChecked "w" "alice" Read;
                           StoreDelete "w" "a"]))
   /\ blobsOf (deleteBlob this alice "w" "a" w).2 !! ("w", "a") = None)
  /\ setBlob this alice "w" blob w
     = (Thrown ForbiddenException,
        logged [PermissionChecked "w" "alice" Write] w).
Proof.
  cbn zeta.
  destruct (deleteBlob_needs_read_setBlob_needs_write
              (service (Some Read) (Some 1000) 0 2000 false) alice "w" "a"
              (mkUpload "b" (mkStream [bytes 2] Ended))
              (mkWorld {[ ("w", "a") := bytes 3 ]} true []))
    as [H1 H2].
  split.
  - apply H1; reflexivity.
  - apply H2; reflexivity.
Defined.

(** * Further properties of [setBlob] and its siblings *)

Lemma guard_true_iff q usage unlimited n :
  guard q usage unlimited n = true
  <-> (size usage + n > q /\ unlimited = false) \/ n > limit usage.
Proof.
  unfold guard.
  rewrite orb_true_iff, andb_true_iff, negb_true_iff, !Z.gtb_gt. reflexivity.
Qed.

Lemma guard_false_iff q usage unlimited n :
  guard q usage unlimited n = false
  <-> (size usage + n <= q \/ unlimited = true) /\ n <= limit usage.
Proof.
  split.
  - intros G. unfold guard in G. apply orb_false_iff in G as [G1 G2].
    apply andb_false_iff in G1. rewrite Z.gtb_ltb in G2. apply Z.ltb_ge in G2.
    split; [|exact G2]. destruct G1 as [G1|G1].
    + rewrite Z.gtb_ltb in G1. apply Z.ltb_ge in G1. now left.
    + apply negb_false_iff in G1. now right.
  - intros [H1 H2]. now apply guard_fits.
Qed.

Lemma guard_precheck q usage unlimited n :
  0 <= n ->
  guard q usage unlimited 0 || guard q usage unlimited n
  = guard q usage unlimited n.
Proof.
  intros Hn. destruct (guard q usage unlimited 0) eqn:G0; [|reflexivity].
  cbn [orb]. symmetry. now apply (guard_monotone q usage unlimited 0).
Qed.

(** What [setBlob] does for a caller who may write, on a workspace whose
    quota limit is found, in terms of the number of bytes received. *)
Lemma setBlob_outcome_found this user ws blob w q :
  permits (permissionOf this ws (userId user)) Write = true ->
  quota (getWorkspaceUsage this ws) = Some q -> q <> 0 ->
  (setBlob this user ws blob w).1
  = if guard q (getWorkspaceUsage this ws)
         (hasWorkspaceFeature this ws UnlimitedWorkspace)
         (Z.of_nat (length (concat (dataEvents (createReadStream blob)))))
    then Thrown tooLarge
    else match ending (createReadStream blob) with
         | Errored reason => Thrown (StreamFailure reason)
         | Ended =>
             if storeOnline w then Returned (GString (filename blob))
             else Thrown StoreUnavailable
         end.
Proof.
  intros Hp Hq Hne.
  pose proof (setBlob_verdict this user ws blob w) as V.
  apply (f_equal fst) in V. cbn [fst] in V. rewrite V. unfold verdict.
  assert (Hf : found (getWorkspaceUsage this ws) = Some q)
    by (apply found_Some; auto).
  rewrite Hp, Hf, guard_precheck by lia.
  destruct (guard q _ _ _); [reflexivity|].
  destruct (ending _); [|reflexivity]. now destruct (storeOnline w).
Qed.

(** The per-blob limit binds every upload, also on a workspace with the
    unlimited feature: when the caller may write, the quota limit is
    present and not 0, and the bytes received number more than [limit],
    [setBlob] fails with PAYLOAD_TOO_LARGE, however the stream closes and
    whatever the flag. *)
Theorem setBlob_blob_limit_always_enforced this user ws blob w q :
  permits (permissionOf this ws (userId user)) Write = true ->
  quota (getWorkspaceUsage this ws) = Some q -> q <> 0 ->
  Z.of_nat (length (concat (dataEvents (createReadStream blob))))
    > limit (getWorkspaceUsage this ws) ->
  (setBlob this user ws blob w).1
  = Thrown (GraphQLError "storage or blob size limit exceeded"
                         PAYLOAD_TOO_LARGE)
  /\ blobsOf (setBlob this user ws blob w).2 = blobsOf w.
Proof.
  intros Hp Hq Hne Hbig.
  pose proof (setBlob_outcome_found this user ws blob w q Hp Hq Hne) as O.
  assert (G : guard q (getWorkspaceUsage this ws)
                (hasWorkspaceFeature this ws UnlimitedWorkspace)
                (Z.of_nat (length (concat (dataEvents (createReadStream blob)))))
              = true) by (apply guard_true_iff; now right).
  rewrite G in O.
  pose proof (setBlob_verdict this user ws blob w) as V.
  split; [exact O|].
  apply (f_equal snd) in V. cbn [snd] in V. rewrite V. unfold verdict.
  assert (Hf : found (getWorkspaceUsage this ws) = Some q)
    by (apply found_Some; auto).
  rewrite Hp, Hf, guard_precheck, G by lia. reflexivity.
Qed.

Lemma setBlob_blob_limit_always_enforced_witness :
  let this := service (Some Write) (Some 1000) 0 4 true in
  let blob := mkUpload "a" (mkStream [bytes 2; bytes 3] Ended) in
  (setBlob this alice "w" blob emptyWorld).1
  = Thrown (GraphQLError "storage or blob size limit exceeded"
                         PAYLOAD_TOO_LARGE)
  /\ blobsOf (setBlob this alice "w" blob emptyWorld).2 = blobsOf emptyWorld.
Proof.
  apply (setBlob_blob_limit_always_enforced
           (service (Some Write) (Some 1000) 0 4 true) alice "w"
           (mkUpload "a" (mkStream [bytes 2; bytes 3] Ended)) emptyWorld 1000).
  - reflexivity.
  - reflexivity.
  - lia.
  - vm_compute. reflexivity.
Defined.

(** The rejection the ['end'] listener carries, 'storage limit exceeded',
    never reaches the caller: whenever the final check fails, either the
    ['data'] listener has already rejected the promise on the last chunk,
    or no chunk came and the first check has thrown before the stream was
    created. *)
Theorem setBlob_end_rejection_never_seen this user ws blob w :
  (setBlob this user ws blob w).1
  <> Thrown (GraphQLError "storage limit exceeded" PAYLOAD_TOO_LARGE).
Proof.
  pose proof (setBlob_verdict this user ws blob w) as V.
  apply (f_equal fst) in V. cbn [fst] in V. rewrite V. unfold verdict.
  repeat match goal with
         | |- context [if ?b then _ else _] => destruct b
         | |- context [match ?x with _ => _ end] => destruct x
         end; cbn [fst]; discriminate.
Qed.

(** As long as the numbers involved ([quota], [size], [limit], the
    number of bytes received and its sum with [size]) are safe integers,
    [setBlob] succeeds exactly when the caller may write, the quota limit
    is present and not 0, the bytes received fit the per-blob limit and
    (unless the workspace is unlimited) the remaining quota, the stream
    ends without error, and the store accepts the [put]. *)
Theorem setBlob_succeeds_iff this user ws blob w :
  let usage := getWorkspaceUsage this ws in
  let received :=
    Z.of_nat (length (concat (dataEvents (createReadStream blob)))) in
  safeSizes usage received ->
  (exists v, (setBlob this user ws blob w).1 = Returned v)
  <-> permits (permissionOf this ws (userId user)) Write = true
      /\ (exists q, quota usage = Some q /\ q <> 0
                    /\ (size usage + received <= q
                        \/ hasWorkspaceFeature this ws UnlimitedWorkspace = true))
      /\ received <= limit usage
      /\ ending (createReadStream blob) = Ended
      /\ storeOnline w = true.
Proof.
  cbn zeta. intros _. split.
  - intros [v Hv].
    pose proof (setBlob_verdict this user ws blob w) as V.
    apply (f_equal fst) in V. cbn [fst] in V. rewrite Hv in V.
    unfold verdict in V.
    destruct (permits _ Write) eqn:Hp; [|discriminate V].
    destruct (found _) as [q|] eqn:Hf; [|discriminate V].
    apply found_Some in Hf as [Hq Hne].
    rewrite guard_precheck in V by lia.
    destruct (guard q _ _ _) eqn:G; [discriminate V|].
    apply guard_false_iff in G as [G1 G2].
    destruct (ending _) eqn:Hend; [|discriminate V].
    destruct (storeOnline w) eqn:Hon; [|discriminate V].
    repeat split; eauto.
  - intros (Hp & (q & Hq & Hne & Hfit) & Hblob & Hend & Hon).
    exists (GString (filename blob)).
    rewrite (setBlob_outcome_found this user ws blob w q Hp Hq Hne).
    rewrite (guard_fits q _ _ _ Hfit Hblob), Hend, Hon. reflexivity.
Qed.

Lemma setBlob_succeeds_iff_witness :
  let this := service (Some Write) (Some 1000) 900 2000 false in
  let blob := mkUpload "a" (mkStream [bytes 20; bytes 20; bytes 10] Ended) in
  (exists v, (setBlob this alice "w" blob emptyWorld).1 = Returned v)
  <-> permits (permissionOf this "w" (userId alice)) Write = true
      /\ (exists q, quota (getWorkspaceUsage this "w") = Some q /\ q <> 0
                    /\ (size (getWorkspaceUsage this "w") + 50 <= q
                        \/ hasWorkspaceFeature this "w" UnlimitedWorkspace
                           = true))
      /\ 50 <= limit (getWorkspaceUsage this "w")
      /\ ending (createReadStream blob) = Ended
      /\ storeOnline emptyWorld = true.
Proof.
  apply (setBlob_succeeds_iff
           (service (Some Write) (Some 1000) 900 2000 false) alice "w"
           (mkUpload "a" (mkStream [bytes 20; bytes 20; bytes 10] Ended))
           emptyWorld).
  repeat split; vm_compute; discriminate.
Defined.

(** An upload that is too large stays too large when more bytes follow:
    if [setBlob] fails with PAYLOAD_TOO_LARGE on some chunks, it fails in
    the same way on those chunks followed by any others, under any name,
    however the stream closes and whatever the store holds. *)
Theorem setBlob_rejection_is_monotone this user ws name closing cs w :
  (setBlob this user ws (mkUpload name (mkStream cs closing)) w).1
  = Thrown (GraphQLError "storage or blob size limit exceeded"
                         PAYLOAD_TOO_LARGE) ->
  forall more name' closing' w',
    (setBlob this user ws (mkUpload name' (mkStream (cs ++ more) closing')) w').1
    = Thrown (GraphQLError "storage or blob size limit exceeded"
                           PAYLOAD_TOO_LARGE).
Proof.
  intros H more name' closing' w'.
  pose proof (setBlob_verdict this user ws
                (mkUpload name (mkStream cs closing)) w) as V.
  apply (f_equal fst) in V. cbn [fst] in V. rewrite H in V.
  unfold verdict in V. cbn [filename createReadStream dataEvents ending] in V.
  destruct (permits _ Write) eqn:Hp; [|discriminate V].
  destruct (found _) as [q|] eqn:Hf; [|discriminate V].
  apply found_Some in Hf as [Hq Hne].
  rewrite guard_precheck in V by lia.
  destruct (guard q _ _ _) eqn:G.
  2: { destruct closing; [destruct (storeOnline w)|]; discriminate V. }
  rewrite (setBlob_outcome_found _ _ _ _ _ q Hp Hq Hne).
  cbn [createReadStream dataEvents].
  assert (Hle : Z.of_nat (length (concat cs))
                <= Z.of_nat (length (concat (cs ++ more))))
    by (rewrite concat_app, length_app; lia).
  now rewrite (guard_monotone q _ _ _ _ Hle G).
Qed.

Lemma setBlob_rejection_is_monotone_witness :
  let this := service (Some Write) (Some 10) 9 20 false in
  (setBlob this alice "w"
     (mkUpload "b" (mkStream ([bytes 2] ++ [bytes 1; bytes 0]) (Errored "reset")))
     (mkWorld ∅ false [])).1
  = Thrown (GraphQLError "storage or blob size limit exceeded"
                         PAYLOAD_TOO_LARGE).
Proof.
  apply (setBlob_rejection_is_monotone
           (service (Some Write) (Some 10) 9 20 false) alice "w" "a" Ended
           [bytes 2] emptyWorld).
  vm_compute. reflexivity.
Defined.

(** When the upload stream fails after delivering some chunks, the
    caller (who may write, on a workspace whose quota limit is present
    and not 0, all the numbers involved being safe integers) sees
    PAYLOAD_TOO_LARGE if the bytes delivered already broke a limit, since
    the promise was rejected first by the ['data'] listener, and the
    stream's own error otherwise; in both cases nothing is put into the
    store. *)
Theorem setBlob_stream_failure this user ws name cs reason w q :
  permits (permissionOf this ws (userId user)) Write = true ->
  quota (getWorkspaceUsage this ws) = Some q -> q <> 0 ->
  safeSizes (getWorkspaceUsage this ws) (Z.of_nat (length (concat cs))) ->
  let usage := getWorkspaceUsage this ws in
  let unlimited := hasWorkspaceFeature this ws UnlimitedWorkspace in
  let received := Z.of_nat (length (concat cs)) in
  let r := setBlob this user ws (mkUpload name (mkStream cs (Errored reason))) w in
  ((size usage + received > q /\ unlimited = false) \/ received > limit usage ->
   r.1 = Thrown (GraphQLError "storage or blob size limit exceeded"
                              PAYLOAD_TOO_LARGE))
  /\ ((size usage + received <= q \/ unlimited = true) ->
      received <= limit usage ->
      r.1 = Thrown (StreamFailure reason))
  /\ blobsOf r.2 = blobsOf w
  /\ Forall (fun e => isStorePut e = false) (performed w r.2).
Proof.
  intros Hp Hq Hne _. cbn zeta.
  pose proof (setBlob_outcome_found this user ws
                (mkUpload name (mkStream cs (Errored reason))) w q Hp Hq Hne)
    as O.
  cbn [createReadStream dataEvents ending] in O.
  assert (Hf : found (getWorkspaceUsage this ws) = Some q)
    by (apply found_Some; auto).
  split; [|split; [|split]].
  - intros G%guard_true_iff. now rewrite G in O.
  - intros Hfit Hblob. now rewrite (guard_fits q _ _ _ Hfit Hblob) in O.
  - pose proof (setBlob_verdict this user ws
                  (mkUpload name (mkStream cs (Errored reason))) w) as V.
    apply (f_equal snd) in V. cbn [snd] in V. rewrite V. unfold verdict.
    cbn [createReadStream dataEvents ending]. rewrite Hp, Hf.
    now destruct (_ || _).
  - rewrite (setBlob_found _ _ _ _ q) by assumption. cbn zeta.
    pose proof (guardLog_harmless q (getWorkspaceUsage this ws)
                  (hasWorkspaceFeature this ws UnlimitedWorkspace) 0) as H0.
    pose proof (uploadTrace_harmless q (getWorkspaceUsage this ws)
                  (hasWorkspaceFeature this ws UnlimitedWorkspace)
                  (mkStream cs (Errored reason))) as Hup.
    assert (Hs : forall l, Forall harmless l ->
                   Forall (fun e => isStorePut e = false) l).
    { intros l H. eapply Forall_impl; [exact H|]. now intros e [? _]. }
    assert (Hc : harmless (PermissionChecked ws (userId user) Write))
      by (split; reflexivity).
    destruct (guard q _ _ 0) eqn:G0.
    { cbn [snd]. rewrite performed_logged. apply Hs. now constructor. }
    rewrite settled_after_precheck by assumption.
    cbn [createReadStream dataEvents ending].
    destruct (guard q _ _ (bufferSize cs)); cbn [snd];
      rewrite performed_logged; apply Hs; now constructor.
Qed.

Lemma setBlob_stream_failure_witness :
  let this := service (Some Write) (Some 10) 5 20 false in
  let r := setBlob this alice "w"
             (mkUpload "a" (mkStream [bytes 2; bytes 1] (Errored "reset")))
             emptyWorld in
  let over := setBlob this alice "w"
                (mkUpload "a" (mkStream [bytes 4; bytes 3] (Errored "reset")))
                emptyWorld in
  r.1 = Thrown (StreamFailure "reset")
  /\ blobsOf r.2 = blobsOf emptyWorld
  /\ Forall (fun e => isStorePut e = false) (performed emptyWorld r.2)
  /\ over.1 = Thrown (GraphQLError "storage or blob size limit exceeded"
                                   PAYLOAD_TOO_LARGE).
Proof.
  cbn zeta.
  destruct (setBlob_stream_failure
              (service (Some Write) (Some 10) 5 20 false) alice "w" "a"
              [bytes 2; bytes 1] "reset" emptyWorld 10)
    as (_ & H2 & H3 & H4).
  - reflexivity.
  - reflexivity.
  - lia.
  - repeat split; vm_compute; discriminate.
  - split; [|split; [exact H3 | split; [exact H4|]]].
    + apply H2.
      * left. vm_compute. discriminate.
      * vm_compute. discriminate.
    + destruct (setBlob_stream_failure
                  (service (Some Write) (Some 10) 5 20 false) alice "w" "a"
                  [bytes 4; bytes 3] "reset" emptyWorld 10)
        as (H1 & _).
      * reflexivity.
      * reflexivity.
      * lia.
      * repeat split; vm_compute; discriminate.
      * apply H1. left. split; [vm_compute; reflexivity | reflexivity].
Defined.

(** Once the first check has passed (the caller may write, the quota
    limit is present and not 0, and the workspace is not already over its
    quota), the ['data'] listener receives every chunk the stream emits,
    in order, whether the upload ends accepted or rejected. *)
Theorem setBlob_consumes_whole_stream this user ws blob w q :
  permits (permissionOf this ws (userId user)) Write = true ->
  quota (getWorkspaceUsage this ws) = Some q -> q <> 0 ->
  size (getWorkspaceUsage this ws) <= q
    \/ hasWorkspaceFeature this ws UnlimitedWorkspace = true ->
  0 <= limit (getWorkspaceUsage this ws) ->
  chunksReceived (performed w (setBlob this user ws blob w).2)
  = dataEvents (createReadStream blob).
Proof.
  intros Hp Hq Hne Hfit Hlim.
  apply (setBlob_receives_every_chunk this user ws blob w q Hp).
  - apply found_Some. auto.
  - apply guard_fits; [|exact Hlim].
    destruct Hfit as [Hfit|Hfit]; [left; lia | now right].
Qed.

Lemma setBlob_consumes_whole_stream_witness :
  let this := service (Some Write) (Some 10) 9 20 false in
  let blob := mkUpload "a" (mkStream [bytes 2; bytes 3; bytes 4] (Errored "x")) in
  chunksReceived (performed emptyWorld (setBlob this alice "w" blob emptyWorld).2)
  = dataEvents (createReadStream blob).
Proof.
  apply (setBlob_consumes_whole_stream
           (service (Some Write) (Some 10) 9 20 false) alice "w"
           (mkUpload "a" (mkStream [bytes 2; bytes 3; bytes 4] (Errored "x")))
           emptyWorld 10).
  - reflexivity.
  - reflexivity.
  - lia.
  - left. vm_compute. discriminate.
  - vm_compute. discriminate.
Defined.

(** [blobs] and [deleteBlob] make the permission check their first
    effect, and a caller without read permission is refused with
    FORBIDDEN by both, with no call to the store: nothing is listed and
    nothing is deleted. *)
Theorem blobs_and_deleteBlob_refuse_strangers this user workspace name w :
  permits (permissionOf this (workspaceIdOf workspace) (userId user)) Read
  = false ->
  let ws := workspaceIdOf workspace in
  blobs this user workspace w
  = (Thrown ForbiddenException,
     logged [PermissionChecked ws (userId user) Read] w)
  /\ deleteBlob this user ws name w
     = (Thrown ForbiddenException,
        logged [PermissionChecked ws (userId user) Read] w)
  /\ blobsOf (deleteBlob this user ws name w).2 = blobsOf w.
Proof.
  intros Hp. cbn zeta.
  rewrite blobs_guarded, deleteBlob_guarded by assumption.
  repeat split.
Qed.

Lemma blobs_and_deleteBlob_refuse_strangers_witness :
  let this := service None (Some 1000) 0 2000 false in
  let w := mkWorld {[ ("w", "a") := bytes 3 ]} true [] in
  blobs this alice (mkWorkspace "w") w
  = (Thrown ForbiddenException,
     logged [PermissionChecked "w" "alice" Read] w)
  /\ deleteBlob this alice "w" "a" w
     = (Thrown ForbiddenException,
        logged [PermissionChecked "w" "alice" Read] w)
  /\ blobsOf (deleteBlob this alice "w" "a" w).2 = blobsOf w.
Proof.
  apply (blobs_and_deleteBlob_refuse_strangers
           (service None (Some 1000) 0 2000 false) alice (mkWorkspace "w") "a"
           (mkWorld {[ ("w", "a") := bytes 3 ]} true [])).
  reflexivity.
Defined.

(** * The GraphQL client *)

(** ** Fields *)

Lemma setField_keys {A} key (value : A) fields :
  (setField key value fields).*1
  = if bool_decide (key ∈ fields.*1) then fields.*1 else fields.*1 ++ [key].
Proof.
  induction fields as [|[k v] rest IH]; csimpl.
  - reflexivity.
  - destruct (String.eqb_spec k key) as [->|Hne]; csimpl.
    + rewrite bool_decide_eq_true_2 by (left). reflexivity.
    + rewrite IH. destruct (bool_decide (key ∈ rest.*1)) eqn:E.
      * apply bool_decide_eq_true_1 in E.
        rewrite bool_decide_eq_true_2 by (now right). reflexivity.
      * apply bool_decide_eq_false_1 in E.
        rewrite bool_decide_eq_false_2; [reflexivity|].
        intros [?|?]%elem_of_cons; congruence.
Qed.

Lemma setField_fresh {A} key (value : A) fields :
  key ∉ fields.*1 -> setField key value fields = fields ++ [(key, value)].
Proof.
  induction fields as [|[k v] rest IH]; csimpl; intros Hk.
  - reflexivity.
  - apply not_elem_of_cons in Hk as [Hne Hk].
    destruct (String.eqb_spec k key) as [->|_]; [contradiction|].
    now rewrite IH.
Qed.

Lemma setField_values {A} (P : A -> Prop) key value fields :
  P value -> Forall (fun kv => P kv.2) fields ->
  Forall (fun kv => P kv.2) (setField key value fields).
Proof.
  intros Hv. induction 1 as [|[k v] rest Hk Hrest IH]; simpl.
  - repeat constructor. exact Hv.
  - destruct (String.eqb k key); constructor; auto.
Qed.

Lemma setField_NoDup {A} key (value : A) fields :
  NoDup fields.*1 -> NoDup (setField key value fields).*1.
Proof.
  intros Hnd. rewrite setField_keys. case_bool_decide; [exact Hnd|].
  apply NoDup_app. repeat split; [exact Hnd| |apply NoDup_singleton].
  intros x Hx ->%list_elem_of_singleton. contradiction.
Qed.

Lemma getField_setField {A} key key' (value : A) fields :
  getField key (setField key' value fields)
  = if String.eqb key' key then Some value else getField key fields.
Proof.
  induction fields as [|[k v] rest IH]; simpl.
  - reflexivity.
  - destruct (String.eqb_spec k key') as [->|Hne]; simpl.
    + now destruct (String.eqb key' key).
    + rewrite IH. destruct (String.eqb_spec k key) as [->|_]; [|reflexivity].
      destruct (String.eqb_spec key' key) as [->|_]; congruence.
Qed.

Lemma getField_None {A} key (fields : list (string * A)) :
  key ∉ fields.*1 -> getField key fields = None.
Proof.
  induction fields as [|[k v] rest IH]; csimpl; intros Hk.
  - reflexivity.
  - apply not_elem_of_cons in Hk as [Hne Hk].
    destruct (String.eqb_spec k key) as [->|_]; [contradiction|]. auto.
Qed.

(** ** Induction on values *)

Lemma JsValue_nested_ind (P : JsValue -> Prop) :
  P JUndefined -> P JNull ->
  (forall b, P (JBoolean b)) -> (forall n, P (JNumber n)) ->
  (forall s, P (JString s)) -> (forall name, P (JFile name)) ->
  (forall items, Forall P items -> P (JArray items)) ->
  (forall fields, Forall (fun kv => P kv.2) fields -> P (JObject fields)) ->
  forall value, P value.
Proof.
  intros Hu Hn Hb Hz Hs Hf Ha Ho. fix IH 1. intros [| |b|n|s|name|items|fields].
  - exact Hu.
  - exact Hn.
  - apply Hb.
  - apply Hz.
  - apply Hs.
  - apply Hf.
  - apply Ha. induction items as [|x xs IHxs]; constructor; [apply IH | exact IHxs].
  - apply Ho. induction fields as [|[k x] xs IHxs]; constructor;
      [apply IH | exact IHxs].
Qed.

(** ** The loop of [filterEmptyValue] as a fold over the entries *)

Lemma indexed_from (i : nat) (items : list JsValue) :
  imap (fun j value => (pretty (i + j)%nat, value)) (items)
  = match items with
    | [] => []
    | value :: rest =>
        (pretty i, value)
          :: imap (fun j value => (pretty (S i + j)%nat, value)) rest
    end.
Proof.
  destruct items as [|value rest]; simpl; [reflexivity|].
  rewrite Nat.add_0_r. f_equal. apply imap_ext. intros j x _. simpl.
  now rewrite Nat.add_succ_r.
Qed.

Lemma foldl_setField_keepEntry (l : list (string * JsValue)) : forall acc,
  Forall (fun kv => isNil kv.2 = false /\ isObject kv.2 = false) l ->
  foldl (fun newVars kv => setField kv.1 kv.2 newVars) acc l
  = foldl keepEntry acc l.
Proof.
  induction l as [|[k v] l IH]; intros acc H; simpl; [reflexivity|].
  apply Forall_cons in H as [[Hn Ho] H]. simpl in Hn, Ho.
  rewrite IH by exact H. unfold keepEntry. simpl. now rewrite Hn, Ho.
Qed.

Lemma Forall_imap_snd (Q : JsValue -> Prop) (items : list JsValue) :
  forall g : nat -> string,
    Forall Q items ->
    Forall (fun kv : string * JsValue => Q kv.2)
           (imap (fun i value => (g i, value)) items).
Proof.
  induction items as [|x xs IH]; intros g H; csimpl.
  - constructor.
  - apply Forall_cons in H as [Hx H]. constructor; [exact Hx|].
    exact (IH (fun i => g (S i)) H).
Qed.

Lemma indexed_characters s :
  Forall (fun kv : string * JsValue =>
            isNil kv.2 = false /\ isObject kv.2 = false)
         (indexed (characters s)).
Proof.
  unfold indexed, characters.
  apply (Forall_imap_snd (fun v => isNil v = false /\ isObject v = false)).
  apply Forall_fmap, Forall_forall. intros c _. split; reflexivity.
Qed.

Lemma filterEntries_fold value :
  filterEntries value = foldl keepEntry [] (default [] (entries value)).
Proof.
  destruct value as [| |b|n|s|name|items|fields]; try reflexivity.
  - simpl. apply foldl_setField_keepEntry, indexed_characters.
  - simpl. unfold indexed.
    change (imap _ items)
      with (imap (fun (j : nat) (value : JsValue) =>
                    (pretty (0 + j)%nat, value)) items).
    generalize (@nil (string * JsValue)) as acc. generalize 0%nat as i.
    induction items as [|value rest IH]; intros i acc; [reflexivity|].
    rewrite indexed_from. cbn [foldl]. rewrite <- IH. reflexivity.
  - simpl. generalize (@nil (string * JsValue)) as acc.
    induction fields as [|[key value] rest IH]; intros acc; [reflexivity|].
    cbn [foldl]. rewrite <- IH. reflexivity.
Qed.

Lemma keepEntry_kept newVars key value :
  keepEntry newVars (key, value)
  = if isNil value then newVars else setField key (kept value) newVars.
Proof.
  unfold keepEntry, kept. cbn [fst snd].
  destruct (isNil value); [reflexivity|].
  now destruct (isObject value && negb (isFile value)).
Qed.

(** With distinct keys no assignment overwrites another, and the loop is
    a filter that keeps the order of the entries. *)
Lemma foldl_keepEntry_distinct (l : list (string * JsValue)) : forall acc,
  NoDup (acc.*1 ++ l.*1) ->
  foldl keepEntry acc l = acc ++ omap keptEntry l.
Proof.
  induction l as [|[k v] l IH]; intros acc Hnd; csimpl.
  - now rewrite app_nil_r.
  - rewrite keepEntry_kept. unfold keptEntry. cbn [fst snd].
    csimpl in Hnd.
    apply NoDup_app in Hnd as (Hacc & Hdisj & Hl).
    apply NoDup_cons in Hl as [Hk Hl].
    assert (Hfresh : k ∉ acc.*1).
    { intros Hin. apply (Hdisj k Hin). left. }
    destruct (isNil v).
    + apply IH. apply NoDup_app. split; [exact Hacc|]. split; [|exact Hl].
      intros x Hx Hx'. apply (Hdisj x Hx). now right.
    + rewrite setField_fresh by exact Hfresh. csimpl.
      rewrite IH.
      * now rewrite <- app_assoc.
      * rewrite fmap_app. csimpl. rewrite <- app_assoc. csimpl.
        apply NoDup_app. split; [exact Hacc|]. split.
        -- intros x Hx Hx'. apply (Hdisj x Hx). exact Hx'.
        -- now apply NoDup_cons.
Qed.

Lemma filterEntries_distinct fields :
  NoDup fields.*1 ->
  filterEntries (JObject fields) = omap keptEntry fields.
Proof.
  intros Hnd. rewrite filterEntries_fold. cbn [entries default from_option id].
  now rewrite foldl_keepEntry_distinct.
Qed.

(** ** Tidy values *)

Lemma tidy_object fields :
  tidy (JObject fields) = true
  <-> NoDup fields.*1 /\ Forall (fun kv => tidy kv.2 = true) fields.
Proof.
  cbn [tidy]. rewrite andb_true_iff, bool_decide_eq_true.
  apply and_iff_compat_l.
  induction fields as [|[k v] rest IH].
  - split; [constructor | reflexivity].
  - rewrite andb_true_iff, IH, Forall_cons. reflexivity.
Qed.

Lemma tidy_not_nil value : tidy value = true -> isNil value = false.
Proof. now destruct value. Qed.

Lemma kept_tidy value :
  isNil value = false ->
  tidy (JObject (filterEntries value)) = true ->
  tidy (kept value) = true.
Proof.
  intros Hn Hrec. unfold kept.
  destruct value; try discriminate Hn; try reflexivity; exact Hrec.
Qed.

Lemma foldl_keepEntry_tidy (l : list (string * JsValue)) : forall acc,
  Forall (fun kv => tidy (JObject (filterEntries kv.2)) = true) l ->
  tidy (JObject acc) = true ->
  tidy (JObject (foldl keepEntry acc l)) = true.
Proof.
  induction l as [|[k v] l IH]; intros acc Hl Hacc; csimpl.
  - exact Hacc.
  - apply Forall_cons in Hl as [Hv Hl]. cbn [snd] in Hv.
    apply IH; [exact Hl|]. rewrite keepEntry_kept.
    destruct (isNil v) eqn:Hn; [exact Hacc|].
    apply tidy_object in Hacc as [Hnd Hvals]. apply tidy_object. split.
    + now apply setField_NoDup.
    + apply (setField_values (fun x => tidy x = true)); [|exact Hvals].
      now apply kept_tidy.
Qed.

Lemma filterEntries_tidy value : tidy (JObject (filterEntries value)) = true.
Proof.
  induction value as [| |b|n|s|name|items IH|fields IH]
    using JsValue_nested_ind; try reflexivity.
  - rewrite filterEntries_fold. cbn [entries default from_option id].
    apply foldl_keepEntry_tidy; [|reflexivity].
    apply (Forall_imap_snd
             (fun v => tidy (JObject (filterEntries v)) = true)).
    apply Forall_fmap, Forall_forall. intros c _. reflexivity.
  - rewrite filterEntries_fold. cbn [entries default from_option id].
    apply foldl_keepEntry_tidy; [|reflexivity].
    apply (Forall_imap_snd
             (fun v => tidy (JObject (filterEntries v)) = true)), IH.
  - rewrite filterEntries_fold. cbn [entries default from_option id].
    apply foldl_keepEntry_tidy; [exact IH | reflexivity].
Qed.

Lemma kept_of_tidy value : tidy value = true -> kept value = value.
Proof.
  induction value as [| |b|n|s|name|items IH|fields IH]
    using JsValue_nested_ind; intros Ht; try reflexivity; try discriminate Ht.
  apply tidy_object in Ht as [Hnd Hvals].
  unfold kept. cbn [isObject isFile andb negb].
  rewrite filterEntries_distinct by exact Hnd. f_equal.
  clear Hnd. induction fields as [|[k v] rest IHrest]; csimpl; [reflexivity|].
  apply Forall_cons in IH as [Hv IH]. apply Forall_cons in Hvals as [Htv Hvals].
  cbn [snd] in Hv, Htv. unfold keptEntry at 1. cbn [fst snd].
  rewrite (tidy_not_nil v Htv), (Hv Htv). csimpl.
  now rewrite IHrest.
Qed.

(** The result of [filterEmptyValue] holds no [null] and no [undefined]
    at any depth; every array inside the variables has become a plain
    object, and no object of the result repeats a key. *)
Theorem filterEmptyValue_result_is_tidy vars out :
  filterEmptyValue vars = Done out -> tidy out = true.
Proof.
  unfold filterEmptyValue. destruct (isNil vars); [discriminate|].
  intros [= <-]. apply filterEntries_tidy.
Qed.

Lemma filterEmptyValue_result_is_tidy_witness :
  tidy (JObject [("a", JNumber 0);
                 ("c", JObject [("e", JObject [("0", JString "x")])])])
  = true.
Proof.
  apply (filterEmptyValue_result_is_tidy
           (JObject [("a", JNumber 0); ("b", JUndefined);
                     ("c", JObject [("d", JNull);
                                    ("e", JArray [JString "x"; JNull])])])).
  vm_compute. reflexivity.
Defined.

(** Variables that are already tidy come back unchanged, and filtering
    twice gives what filtering once gives. *)
Theorem filterEmptyValue_idempotent :
  (forall fields,
     tidy (JObject fields) = true ->
     filterEmptyValue (JObject fields) = Done (JObject fields))
  /\ (forall vars out,
        filterEmptyValue vars = Done out ->
        filterEmptyValue out = Done out).
Proof.
  assert (Fix : forall fields,
            tidy (JObject fields) = true ->
            filterEmptyValue (JObject fields) = Done (JObject fields)).
  { intros fields Ht. unfold filterEmptyValue. cbn [isNil]. f_equal.
    exact (kept_of_tidy (JObject fields) Ht). }
  split; [exact Fix|].
  intros vars out H. pose proof (filterEntries_tidy vars) as Ht.
  unfold filterEmptyValue in H. destruct (isNil vars); [discriminate|].
  injection H as <-. now apply Fix.
Qed.

Lemma filterEmptyValue_idempotent_witness :
  let tidied := JObject [("a", JNumber 0); ("c", JObject [("e", JFile "f")])] in
  filterEmptyValue tidied = Done tidied
  /\ filterEmptyValue (JObject [("a", JNumber 0); ("c", JObject [])])
     = Done (JObject [("a", JNumber 0); ("c", JObject [])]).
Proof.
  cbn zeta. destruct filterEmptyValue_idempotent as [H1 H2]. split.
  - apply H1. vm_compute. reflexivity.
  - apply (H2 (JObject [("a", JNumber 0); ("b", JNull);
                        ("c", JObject [("d", JUndefined)])])).
    vm_compute. reflexivity.
Defined.

Lemma keptEntry_keys (l : list (string * JsValue)) key :
  key ∉ l.*1 -> key ∉ (omap keptEntry l).*1.
Proof.
  induction l as [|[k v] l IH]; csimpl; intros Hk; [exact Hk|].
  apply not_elem_of_cons in Hk as [Hne Hk].
  unfold keptEntry at 1. cbn [fst snd].
  destruct (isNil v); csimpl; [auto|].
  apply not_elem_of_cons. auto.
Qed.

Lemma getField_keptEntry (l : list (string * JsValue)) key :
  NoDup l.*1 ->
  getField key (omap keptEntry l)
  = match getField key l with
    | None => None
    | Some value => if isNil value then None else Some (kept value)
    end.
Proof.
  induction l as [|[k v] l IH]; csimpl; intros Hnd; [reflexivity|].
  apply NoDup_cons in Hnd as [Hk Hnd].
  unfold keptEntry at 1. cbn [fst snd].
  destruct (String.eqb_spec k key) as [->|Hne].
  - destruct (isNil v); csimpl.
    + apply getField_None, keptEntry_keys, Hk.
    + now rewrite String.eqb_refl.
  - destruct (isNil v); csimpl.
    + now apply IH.
    + destruct (String.eqb_spec k key) as [|_]; [contradiction|]. now apply IH.
Qed.

(** Reading a key of the filtered variables (an object with distinct
    keys): a key that is absent, or whose value is [null] or [undefined],
    is absent from the result; a number, string, boolean or [File] is
    found unchanged; an object or array is found filtered in turn. *)
Theorem filterEmptyValue_field fields key :
  NoDup fields.*1 ->
  exists out,
    filterEmptyValue (JObject fields) = Done (JObject out)
    /\ getField key out
       = match getField key fields with
         | None => None
         | Some value =>
             if isNil value then None
             else if isObject value && negb (isFile value)
                  then match filterEmptyValue value with
                       | Done filtered => Some filtered
                       | Failed _ => None
                       end
                  else Some value
         end.
Proof.
  intros Hnd. exists (filterEntries (JObject fields)). split; [reflexivity|].
  rewrite filterEntries_distinct, getField_keptEntry by exact Hnd.
  destruct (getField key fields) as [value|]; [|reflexivity].
  unfold kept, filterEmptyValue.
  destruct (isNil value); [reflexivity|].
  now destruct (isObject value && negb (isFile value)).
Qed.

Lemma filterEmptyValue_field_witness :
  exists out,
    filterEmptyValue
      (JObject [("n", JNumber 0); ("gone", JNull); ("file", JFile "cv.pdf")])
    = Done (JObject out)
    /\ getField "file" out = Some (JFile "cv.pdf").
Proof.
  destruct (filterEmptyValue_field
              [("n", JNumber 0); ("gone", JNull); ("file", JFile "cv.pdf")]
              "file") as [out [H1 H2]].
  - apply (bool_decide_eq_true_1 _). vm_compute. reflexivity.
  - exists out. split; [exact H1 | exact H2].
Defined.

Lemma indexed_keys_from (items : list JsValue) : forall i : nat,
  (imap (fun (j : nat) (value : JsValue) => (pretty (i + j)%nat, value)) items).*1
  = pretty <$> seq i (length items).
Proof.
  induction items as [|x xs IH]; intros i; [reflexivity|].
  rewrite indexed_from, fmap_cons. cbn [fst length seq]. rewrite fmap_cons.
  f_equal. exact (IH (S i)).
Qed.

Lemma indexed_NoDup items : NoDup (indexed items).*1.
Proof.
  unfold indexed.
  change (imap _ items)
    with (imap (fun (j : nat) (value : JsValue) =>
                  (pretty (0 + j)%nat, value)) items).
  rewrite indexed_keys_from.
  apply (NoDup_fmap_2 _), NoDup_seq.
Qed.

(** An array of values that are not objects does not stay an array: it
    comes back as a plain object keyed by the decimal indices, without
    the entries that are [null] or [undefined], the others keeping their
    own index. *)
Theorem filterEmptyValue_array_becomes_object key items :
  Forall (fun value => isObject value = false) items ->
  filterEmptyValue (JObject [(key, JArray items)])
  = Done (JObject
            [(key, JObject (filter (fun kv => isNil kv.2 = false)
                                   (indexed items)))]).
Proof.
  intros Hitems. unfold filterEmptyValue. cbn [isNil]. do 2 f_equal.
  rewrite filterEntries_distinct by (csimpl; apply NoDup_singleton).
  csimpl. do 2 f_equal.
  unfold kept. cbn [isObject isFile andb negb]. f_equal.
  rewrite filterEntries_fold. cbn [entries default from_option id].
  rewrite foldl_keepEntry_distinct by (csimpl; apply indexed_NoDup).
  csimpl.
  assert (H : Forall (fun kv : string * JsValue => isObject kv.2 = false)
                (indexed items)).
  { apply (Forall_imap_snd (fun v => isObject v = false)), Hitems. }
  induction H as [|[k v] l Hv Hl IH]; [reflexivity|].
  cbn [snd] in Hv. csimpl. unfold keptEntry at 1, kept. cbn [fst snd].
  rewrite Hv. cbn [andb].
  destruct (isNil v) eqn:Hn.
  - rewrite filter_cons_False by (cbn [snd]; congruence). exact IH.
  - rewrite filter_cons_True by (cbn [snd]; exact Hn). csimpl. now rewrite IH.
Qed.

Lemma filterEmptyValue_array_becomes_object_witness :
  filterEmptyValue (JObject [("ids", JArray [JNumber 7; JNull; JString "x"])])
  = Done (JObject [("ids", JObject [("0", JNumber 7); ("2", JString "x")])]).
Proof.
  apply (filterEmptyValue_array_becomes_object "ids"
           [JNumber 7; JNull; JString "x"]).
  repeat constructor.
Defined.

(** ** [transformToForm] *)

Lemma pretty_N_char_digit x :
  pretty_N_char x <> "o"%char /\ pretty_N_char x <> "m"%char.
Proof. unfold pretty_N_char. repeat case_match; split; discriminate. Qed.

Lemma pretty_N_go_head x : forall s,
  (0 < x)%N ->
  exists c s', pretty_N_go x s = String c s' /\ c <> "o"%char /\ c <> "m"%char.
Proof.
  induction (N.lt_wf_0 x) as [x _ IH]. intros s Hx.
  rewrite pretty_N_go_step by exact Hx.
  destruct (decide (x `div` 10 = 0)%N) as [E|E].
  - rewrite E, pretty_N_go_0. eexists _, _. split; [reflexivity|].
    apply pretty_N_char_digit.
  - apply IH.
    + apply N.div_lt; [exact Hx | reflexivity].
    + now apply N.neq_0_lt_0.
Qed.

Lemma pretty_nat_not_a_word (i : nat) :
  pretty i <> "operations" /\ pretty i <> "map".
Proof.
  unfold pretty, pretty_nat, pretty, pretty_N.
  case_decide as E; [split; discriminate|].
  destruct (pretty_N_go_head (N.of_nat i) "") as (c & s' & -> & Ho & Hm);
    [lia|].
  split; intros [= ? _]; contradiction.
Qed.

Lemma foldl_attach (files : list string) : forall (i : nat) form,
  (forall j : nat, (i <= j)%nat -> pretty j ∉ form.*1) ->
  foldl (fun form (entry : nat * string) =>
           setField (pretty entry.1) (Attached entry.2) form)
        form (imap (fun j file => ((i + j)%nat, file)) files)
  = form ++ imap (fun j file => (pretty (i + j)%nat, Attached file)) files.
Proof.
  induction files as [|file rest IH]; intros i form Hfresh; csimpl.
  - now rewrite app_nil_r.
  - rewrite Nat.add_0_r. rewrite setField_fresh by (apply Hfresh; lia).
    rewrite (imap_ext _ (fun j f => ((S i + j)%nat, f)) rest)
      by (intros; simpl; f_equal; lia).
    rewrite IH.
    + rewrite <- app_assoc. csimpl. do 2 f_equal.
      apply imap_ext. intros; simpl. do 2 f_equal. lia.
    + intros j Hj. rewrite fmap_app. csimpl.
      apply not_elem_of_app. split; [apply Hfresh; lia|].
      intros Hin%list_elem_of_singleton.
      apply (inj pretty) in Hin. lia.
Qed.

Lemma collectFiles_object fields :
  collectFiles (JObject fields)
  = (match last (fileEntries fields) with
     | None => []
     | Some kf => [("0", JArray [JString ("variables." +:+ kf.1)])]
     end,
     (fileEntries fields).*2).
Proof.
  unfold collectFiles. cbn [entries default from_option id].
  assert (H : forall (l : list (string * JsValue)) acc,
            (acc.1 = [] \/ exists v, acc.1 = [("0", v)]) ->
            foldl (fun (acc : list (string * JsValue) * list string) kv =>
                     match kv.2 with
                     | JFile file =>
                         (setField "0"
                            (JArray [JString ("variables." +:+ kv.1)]) acc.1,
                          acc.2 ++ [file])
                     | _ => acc
                     end) acc l
            = (match last (fileEntries l) with
               | None => acc.1
               | Some kf => [("0", JArray [JString ("variables." +:+ kf.1)])]
               end,
               acc.2 ++ (fileEntries l).*2)).
  { induction l as [|[k v] l IH]; intros [m fs] Hm; csimpl.
    - now rewrite app_nil_r.
    - destruct v; csimpl; try (apply IH; exact Hm).
      rewrite IH.
      + cbn [fst snd]. rewrite <- app_assoc. f_equal.
        destruct (fileEntries l) as [|kf l'] eqn:E.
        * cbn [last]. cbn [fst] in Hm.
          destruct Hm as [->|[v ->]]; reflexivity.
        * rewrite last_cons_cons.
          destruct (last (kf :: l')) eqn:EL; [reflexivity|].
          apply last_None in EL. discriminate EL.
      + right. cbn [fst] in *. destruct Hm as [->|[v ->]]; eauto. }
  rewrite H by (now left). reflexivity.
Qed.

Lemma transformToForm_object operationName fields query :
  transformToForm (RequestBody.mk operationName (JObject fields) query)
  = [("operations",
      JsonText
        (JObject
           ([("query", JString query); ("variables", JObject fields);
             ("map", JObject [])]
            ++ match operationName with
               | Some name =>
                   if truthyString name then [("name", JString name)] else []
               | None => []
               end)));
     ("map",
      JsonText
        (JObject
           match last (fileEntries fields) with
           | None => []
           | Some kf => [("0", JArray [JString ("variables." +:+ kf.1)])]
           end))]
    ++ imap (fun i kf => (pretty i, Attached kf.2)) (fileEntries fields).
Proof.
  unfold transformToForm.
  cbn [RequestBody.variables RequestBody.query RequestBody.operationName truthy].
  rewrite collectFiles_object. cbn [fst snd setField String.eqb].
  change (setField "map" ?v [("operations", ?o)])
    with [("operations", o); ("map", v)].
  rewrite (foldl_attach _ 0).
  - f_equal. rewrite imap_fmap. reflexivity.
  - intros j _. csimpl. pose proof (pretty_nat_not_a_word j) as [H1 H2].
    intros [?|[?|?%elem_of_nil]%elem_of_cons]%elem_of_cons; congruence.
Qed.

(** The form [transformToForm] builds for variables that are an object:
    first [operations], then [map], then one part per [File] among the
    top-level variables, named "0", "1", ... in their order; no part
    overwrites another, and files nested deeper are not attached. *)
Theorem transformToForm_parts operationName fields query :
  exists operations map,
    transformToForm (RequestBody.mk operationName (JObject fields) query)
    = [("operations", JsonText operations); ("map", JsonText map)]
      ++ imap (fun i kf => (pretty i, Attached kf.2)) (fileEntries fields).
Proof. eexists _, _. apply transformToForm_object. Qed.

(** The [map] part has at most one key, "0", and it names the variable
    of the last [File]: when two or more top-level variables are files,
    part "0" carries the first of them while the map ties part "0" to the
    variable of the last one, and no other part is mentioned. *)
Theorem transformToForm_map_names_last_file
    operationName fields query first middle final :
  fileEntries fields = first :: middle ++ [final] ->
  let form :=
    transformToForm (RequestBody.mk operationName (JObject fields) query) in
  getField "map" form
  = Some (JsonText
            (JObject [("0", JArray [JString ("variables." +:+ final.1)])]))
  /\ getField "0" form = Some (Attached first.2)
  /\ length form = (2 + length (first :: middle ++ [final]))%nat.
Proof.
  intros E. cbn zeta. rewrite transformToForm_object, E.
  split; [|split].
  - cbn [app getField String.eqb Ascii.eqb Bool.eqb].
    rewrite app_comm_cons, last_snoc. reflexivity.
  - reflexivity.
  - rewrite length_app, length_imap. reflexivity.
Qed.

Lemma transformToForm_map_names_last_file_witness :
  let form :=
    transformToForm
      (RequestBody.mk (Some "upload")
         (JObject [("avatar", JFile "a.png"); ("title", JString "t");
                   ("cover", JFile "c.png")])
         "mutation upload { ... }") in
  getField "map" form
  = Some (JsonText (JObject [("0", JArray [JString "variables.cover"])]))
  /\ getField "0" form = Some (Attached "a.png")
  /\ length form = 4%nat.
Proof.
  apply (transformToForm_map_names_last_file (Some "upload")
           [("avatar", JFile "a.png"); ("title", JString "t");
            ("cover", JFile "c.png")]
           "mutation upload { ... }" ("avatar", "a.png") [] ("cover", "c.png")).
  reflexivity.
Defined.

(** ** [formatRequestBody] *)

Lemma fileEntries_keptEntry (l : list (string * JsValue)) :
  fileEntries (omap keptEntry l) = fileEntries l.
Proof.
  unfold fileEntries.
  induction l as [|[k v] l IH]; csimpl; [reflexivity|].
  unfold keptEntry at 1, kept. cbn [fst snd].
  destruct v; csimpl; rewrite ?IH; reflexivity.
Qed.

(** Filtering the variables loses no upload: the [File]s among the
    top-level variables (of an object with distinct keys) are the same,
    under the same keys and in the same order, before and after
    [filterEmptyValue], so that [transformToForm] attaches the same
    parts and writes the same [map] with [keepNilVariables] false as
    with it true. *)
Theorem filterEmptyValue_keeps_files fields out operationName query :
  NoDup fields.*1 ->
  filterEmptyValue (JObject fields) = Done (JObject out) ->
  fileEntries out = fileEntries fields
  /\ drop 1 (transformToForm (RequestBody.mk operationName (JObject out) query))
     = drop 1 (transformToForm
                 (RequestBody.mk operationName (JObject fields) query)).
Proof.
  intros Hnd H.
  assert (Hout : out = omap keptEntry fields).
  { rewrite <- filterEntries_distinct by exact Hnd.
    unfold filterEmptyValue in H. cbn [isNil] in H. congruence. }
  subst out.
  pose proof (fileEntries_keptEntry fields) as E.
  split; [exact E|].
  rewrite !transformToForm_object, E. reflexivity.
Qed.

Lemma filterEmptyValue_keeps_files_witness :
  let fields := [("note", JNull); ("file", JFile "cv.pdf");
                 ("tags", JArray [JString "a"])] in
  let out := [("file", JFile "cv.pdf"); ("tags", JObject [("0", JString "a")])] in
  fileEntries out = fileEntries fields
  /\ drop 1 (transformToForm (RequestBody.mk None (JObject out) "q"))
     = drop 1 (transformToForm (RequestBody.mk None (JObject fields) "q")).
Proof.
  cbn zeta.
  apply (filterEmptyValue_keeps_files
           [("note", JNull); ("file", JFile "cv.pdf");
            ("tags", JArray [JString "a"])]).
  - apply (bool_decide_eq_true_1 _). vm_compute. reflexivity.
  - vm_compute. reflexivity.
Defined.

(** What [formatRequestBody] does with the variables when no file is
    involved: with [keepNilVariables] absent or true they go into the
    body as they are; with [keepNilVariables] false the body carries
    their tidy form.  Either way the query text is the query's, and the
    operation name is there exactly when it is not the empty string. *)
Theorem formatRequestBody_variables options body :
  formatRequestBody options = Done (inl body) ->
  (QueryOptions.keepNilVariables options <> Some false ->
   RequestBody.variables body = QueryOptions.variables options)
  /\ (QueryOptions.keepNilVariables options = Some false ->
      filterEmptyValue (QueryOptions.variables options)
      = Done (RequestBody.variables body)
      /\ tidy (RequestBody.variables body) = true)
  /\ RequestBody.query body
     = GraphQLQuery.query (QueryOptions.query options)
  /\ (RequestBody.operationName body = None
      <-> GraphQLQuery.operationName (QueryOptions.query options) = "").
Proof.
  unfold formatRequestBody. intros H.
  destruct (QueryOptions.keepNilVariables options) as [[|]|] eqn:K;
    cbn [default from_option id] in H.
  1,3: destruct (default false _); [discriminate H|]; injection H as <-;
       cbn [RequestBody.variables RequestBody.query RequestBody.operationName];
       (split; [reflexivity|]); (split; [discriminate|]);
       (split; [reflexivity|]); unfold truthyString;
       destruct (String.eqb_spec
                   (GraphQLQuery.operationName (QueryOptions.query options)) "");
       cbn [negb]; split; congruence.
  destruct (filterEmptyValue (QueryOptions.variables options)) as [vars|e] eqn:F;
    [|discriminate H].
  destruct (default false _); [discriminate H|]. injection H as <-.
  cbn [RequestBody.variables RequestBody.query RequestBody.operationName].
  split; [congruence|]. split.
  - intros _. split; [reflexivity|]. unfold filterEmptyValue in F.
    destruct (isNil _); [discriminate F|]. injection F as <-.
    apply filterEntries_tidy.
  - split; [reflexivity|]. unfold truthyString.
    destruct (String.eqb_spec
                (GraphQLQuery.operationName (QueryOptions.query options)) "");
      cbn [negb]; split; congruence.
Qed.

Lemma formatRequestBody_variables_witness :
  let query := GraphQLQuery.mk "getUser" "user" "query getUser { ... }" None in
  let vars := JObject [("id", JString "u1"); ("cursor", JNull)] in
  let body := RequestBody.mk (Some "getUser") (JObject [("id", JString "u1")])
                "query getUser { ... }" in
  filterEmptyValue vars = Done (RequestBody.variables body)
  /\ tidy (RequestBody.variables body) = true.
Proof.
  cbn zeta.
  destruct (formatRequestBody_variables
              (QueryOptions.mk
                 (GraphQLQuery.mk "getUser" "user" "query getUser { ... }" None)
                 (JObject [("id", JString "u1"); ("cursor", JNull)])
                 (Some false))
              (RequestBody.mk (Some "getUser") (JObject [("id", JString "u1")])
                 "query getUser { ... }"))
    as (_ & H & _).
  - vm_compute. reflexivity.
  - apply H. reflexivity.
Defined.

(** [formatRequestBody] throws in one case only: [keepNilVariables] is
    false and the variables are [undefined] or [null] (a query without
    variables); what it throws is then the [TypeError] of
    [Object.entries]. *)
Theorem formatRequestBody_throws_iff options e :
  formatRequestBody options = Failed e
  <-> QueryOptions.keepNilVariables options = Some false
      /\ isNil (QueryOptions.variables options) = true
      /\ e = TypeError.
Proof.
  unfold formatRequestBody, filterEmptyValue.
  destruct (QueryOptions.keepNilVariables options) as [[|]|];
    cbn [default from_option id].
  1,3: destruct (default false _); split; [discriminate | intros [[=] _]
                                         | discriminate | intros [[=] _]].
  destruct (isNil (QueryOptions.variables options)).
  - split; [intros [= <-]; auto | intros (_ & _ & ->); reflexivity].
  - destruct (default false _); split;
      [discriminate | intros (_ & [=] & _) | discriminate | intros (_ & [=] & _)].
Qed.

(** ** The response handler *)

(** [gqlFetch] resolves with the data exactly when the response declares
    a JSON content type, its body parses, the status is below 400, the
    result has no [errors] field, and [data] is truthy. *)
Theorem onResponse_returns_iff res d :
  onResponse res = Done d
  <-> exists value result,
        contentType res = Some value
        /\ String.prefix "application/json" value = true
        /\ json res = Some result
        /\ status res < 400
        /\ errors result = None
        /\ truthy (data result) = true
        /\ d = data result.
Proof.
  unfold onResponse. split.
  - destruct (contentType res) as [value|]; [|discriminate].
    destruct (String.prefix "application/json" value) eqn:P; [|discriminate].
    destruct (json res) as [result|]; [|discriminate].
    destruct (status res >=? 400) eqn:S; cbn [orb].
    { destruct (errors result) as [[|? ?]|]; discriminate. }
    destruct (errors result) as [l|] eqn:E.
    { rewrite bool_decide_eq_true_2 by eauto. destruct l; discriminate. }
    rewrite bool_decide_eq_false_2 by (intros [? [=]]).
    destruct (truthy (data result)) eqn:T; [|discriminate].
    intros [= <-]. exists value, result. repeat split; auto.
    rewrite Z.geb_leb in S. apply Z.leb_gt in S. exact S.
  - intros (value & result & -> & -> & -> & Hs & He & -> & ->). rewrite He.
    rewrite bool_decide_eq_false_2 by (intros [? [=]]).
    replace (status res >=? 400) with false; [reflexivity|].
    symmetry. rewrite Z.geb_leb. apply Z.leb_gt. exact Hs.
Qed.

(** A JSON response whose result has an [errors] field is always a
    failure, whatever its status and whatever [data] came with it: the
    handler throws the errors' messages, or 'Empty GraphQL error body'
    when the array is empty. *)
Theorem onResponse_errors_win res value result messages :
  contentType res = Some value ->
  String.prefix "application/json" value = true ->
  json res = Some result ->
  errors result = Some messages ->
  onResponse res
  = Failed (match messages with
            | [] => OneGraphQLError "Empty GraphQL error body"
            | _ :: _ => ManyGraphQLErrors messages
            end).
Proof.
  intros Hc Hp Hj He. unfold onResponse. rewrite Hc, Hp, Hj, He.
  rewrite bool_decide_eq_true_2 by eauto. rewrite orb_true_r.
  now destruct messages.
Qed.

Lemma onResponse_errors_win_witness :
  onResponse
    (mkResponse 200 (Some "application/json; charset=utf-8")
       (Some (mkResult (Some []) (JObject [("user", JString "u1")]))))
  = Failed (OneGraphQLError "Empty GraphQL error body").
Proof.
  apply (onResponse_errors_win
           (mkResponse 200 (Some "application/json; charset=utf-8")
              (Some (mkResult (Some []) (JObject [("user", JString "u1")]))))
           "application/json; charset=utf-8"
           (mkResult (Some []) (JObject [("user", JString "u1")])) []).
  - reflexivity.
  - reflexivity.
  - reflexivity.
  - reflexivity.
Defined.
